(** * The raw-socket client and server of BasicNetworkingTestSuite.cpp

    A shallow embedding of [RAIIRawSocketInfos], [setup_server] and
    [setup_client] (source/testsuite/BasicNetworkingTestSuite.cpp), and the
    properties of the message exchange, of the error paths and of the
    release of descriptors that follow from the code.

    The two functions talk to the operating system only.  The system is a
    state ([World]): the answers it will give, the descriptors that are open,
    the address lists that are allocated, and the calls made so far.  A C++
    function is a computation in a state and exception monad over the world
    and the local [socketInfos] object, whose destructor runs when the scope
    is left, by return or by throw.

    What the system is taken to do: [getaddrinfo] allocates a non-empty
    list exactly when it returns 0; [socket] and [accept] return -1 or a
    descriptor that is not open; [recv] returns the number of bytes it
    copied, 0 once the peer has shut down, or -1; the peer delivers finitely
    many times and then shuts down; the results of [bind], [listen],
    [connect] and [send] are any integers.

    The lines the two functions write to [std::cout] are kept in the world
    as well; what [print_addrinfo] prints with [printf] depends on the
    layout of the addresses and is left out.

    The file also embeds the timer of [SynchronousTimerTest] (same source
    file) and, from source/testsuite/FunctionCallTestSuite.cpp, the lambda
    [call_n] with the four callables it is benchmarked on and the lambdas
    of [LambdaDetailsTest]. *)

From Stdlib Require Import ZArith List String Bool Lia.
From Stdlib Require Import Strings.Byte.
From Equations Require Import Equations.
Import ListNotations.

Local Open Scope Z_scope.

(* ================================================================== *)
(** ** Characters, arrays and C strings *)

Module CString.

(** [std::array< char, 64 >]: its elements, in order. *)
Definition Buffer := list byte.

Definition NUL : byte := x00.

(** The characters of a string literal, without its terminator. *)
Definition chars (s : string) : list byte := list_byte_of_string s.

(** [strlen] of a literal. *)
Definition strlen (s : string) : Z := Z.of_nat (List.length (chars s)).

(** What a [const char*] denotes as a string: the characters before the
    first zero.  ([boost::string_ref( const char* )] takes exactly these.) *)
Fixpoint c_str (l : list byte) : list byte :=
  match l with
  | [] => []
  | b :: r => if Byte.eqb b NUL then [] else b :: c_str r
  end.

Fixpoint bytes_eqb (a b : list byte) : bool :=
  match a, b with
  | [], [] => true
  | x :: a', y :: b' => Byte.eqb x y && bytes_eqb a' b'
  | _, _ => false
  end.

(** [boost::string_ref( p ) == literal]: same length, same characters. *)
Definition string_ref_eq (p : list byte) (literal : string) : bool :=
  bytes_eqb (c_str p) (c_str (chars literal)).

(** An array whose elements were never written holds whatever the stack
    held: [stack], cut or padded to the array's size. *)
Definition uninitialised (size : nat) (stack : list byte) : Buffer :=
  firstn size (stack ++ repeat NUL size).

(** [a[ i ] = c]; outside the array the store has no defined behaviour. *)
Definition store (a : Buffer) (i : Z) (c : byte) : option Buffer :=
  if (0 <=? i) && (i <? Z.of_nat (List.length a))
  then Some (firstn (Z.to_nat i) a ++ c :: skipn (S (Z.to_nat i)) a)
  else None.

(** Bytes copied to the start of an array; the rest keeps its old
    contents. *)
Definition overwrite (a : Buffer) (got : list byte) : Buffer :=
  got ++ skipn (List.length got) a.

End CString.
Import CString.

(* ================================================================== *)
(** ** The socket library *)

Module Winsock.

Definition SOCKET := Z.

(** The code tests descriptors and results against the literal [-1]. *)
Definition INVALID_SOCKET : SOCKET := -1.
Definition SOCKET_ERROR : Z := -1.

Definition AF_UNSPEC : Z := 0.
Definition SOCK_STREAM : Z := 1.
Definition IPPROTO_TCP : Z := 6.

(** One node of the list [getaddrinfo] returns; [ai_next] is the rest of
    the list. *)
Record addrinfo := {
  ai_flags : Z;
  ai_family : Z;
  ai_socktype : Z;
  ai_protocol : Z;
  ai_addrlen : Z;
  ai_addr : list byte
}.

(** What one call of [recv] finds: bytes from the peer, or a failure.
    When nothing is left to find the peer has shut down.  Each answer
    serves one call: bytes of an answer beyond the length asked for are not
    kept for a later call, where a stream socket would hand them over
    then. *)
Inductive RecvAnswer :=
| RecvBytes (bs : list byte)
| RecvError.

(** The answers of the system to the calls whose result the code tests. *)
Record OS := {
  gai_status : Z;                 (* return value of getaddrinfo *)
  gai_first : addrinfo;           (* the list it allocates on success *)
  gai_more : list addrinfo;
  socket_ok : bool;               (* socket() creates a descriptor *)
  bind_result : Z;
  listen_result : Z;
  accept_ok : bool;               (* accept() creates a descriptor *)
  connect_result : Z;
  send_result : nat -> Z -> Z     (* k-th send of len bytes returns this *)
}.

(** The calls, with their arguments and results. *)
Inductive Event :=
| EGetaddrinfo (node : option string) (service : string) (hints : addrinfo)
               (status : Z)
| ESocket (family socktype protocol : Z) (result : SOCKET)
| EBind (s : SOCKET) (addr : list byte) (namelen : Z) (result : Z)
| EListen (s : SOCKET) (backlog : Z) (result : Z)
| EAccept (s : SOCKET) (result : SOCKET)
| EConnect (s : SOCKET) (addr : list byte) (namelen : Z) (result : Z)
| ERecv (s : SOCKET) (len : Z) (result : Z)
| ESend (s : SOCKET) (bytes : list byte) (len : Z) (result : Z)
| EClosesocket (s : SOCKET) (result : Z)
| EFreeaddrinfo.

Record World := {
  os : OS;
  inbox : list RecvAnswer;        (* what the next calls of recv find *)
  nsend : nat;                    (* calls of send so far *)
  open_sockets : list SOCKET;     (* descriptors open in the process *)
  live_addrinfo : nat;            (* address lists allocated, not freed *)
  trace : list Event;             (* calls so far, oldest first *)
  cout : list (list byte)         (* lines written to std::cout *)
}.

Definition log (e : Event) (w : World) : World :=
  {| os := os w; inbox := inbox w; nsend := nsend w;
     open_sockets := open_sockets w; live_addrinfo := live_addrinfo w;
     trace := trace w ++ [e]; cout := cout w |}.

Definition set_inbox (l : list RecvAnswer) (w : World) : World :=
  {| os := os w; inbox := l; nsend := nsend w;
     open_sockets := open_sockets w; live_addrinfo := live_addrinfo w;
     trace := trace w; cout := cout w |}.

Definition set_nsend (n : nat) (w : World) : World :=
  {| os := os w; inbox := inbox w; nsend := n;
     open_sockets := open_sockets w; live_addrinfo := live_addrinfo w;
     trace := trace w; cout := cout w |}.

Definition set_open (l : list SOCKET) (w : World) : World :=
  {| os := os w; inbox := inbox w; nsend := nsend w;
     open_sockets := l; live_addrinfo := live_addrinfo w;
     trace := trace w; cout := cout w |}.

Definition set_cout (l : list (list byte)) (w : World) : World :=
  {| os := os w; inbox := inbox w; nsend := nsend w;
     open_sockets := open_sockets w; live_addrinfo := live_addrinfo w;
     trace := trace w; cout := l |}.

Definition set_live (n : nat) (w : World) : World :=
  {| os := os w; inbox := inbox w; nsend := nsend w;
     open_sockets := open_sockets w; live_addrinfo := n;
     trace := trace w; cout := cout w |}.

(** A descriptor number that is not open: above every open one, and never
    negative. *)
Definition fresh_socket (open : list SOCKET) : SOCKET :=
  fold_right (fun s acc => Z.max (s + 1) acc) 0 open.

Definition is_open (s : SOCKET) (w : World) : bool :=
  existsb (Z.eqb s) (open_sockets w).

(** A new descriptor, for [socket] and [accept]. *)
Definition new_socket (w : World) : SOCKET * World :=
  let s := fresh_socket (open_sockets w) in
  (s, set_open (s :: open_sockets w) w).

Definition getaddrinfo (node : option string) (service : string)
    (hints : addrinfo) (w : World)
  : (Z * option (addrinfo * list addrinfo)) * World :=
  let status := gai_status (os w) in
  if status =? 0
  then ((status, Some (gai_first (os w), gai_more (os w))),
        log (EGetaddrinfo node service hints status)
            (set_live (S (live_addrinfo w)) w))
  else ((status, None), log (EGetaddrinfo node service hints status) w).

(** [freeaddrinfo( res )]: one list less is allocated.  (The count stops
    at zero; the list freed is always one that [getaddrinfo] allocated:
    the destructor frees [res] only when it is not null, and runs once.) *)
Definition freeaddrinfo (w : World) : unit * World :=
  (tt, log EFreeaddrinfo (set_live (Nat.pred (live_addrinfo w)) w)).

Definition socket (family socktype protocol : Z) (w : World)
  : SOCKET * World :=
  if socket_ok (os w)
  then let '(s, w1) := new_socket w in
       (s, log (ESocket family socktype protocol s) w1)
  else (INVALID_SOCKET,
        log (ESocket family socktype protocol INVALID_SOCKET) w).

Definition bind (s : SOCKET) (addr : list byte) (namelen : Z) (w : World)
  : Z * World :=
  let r := bind_result (os w) in (r, log (EBind s addr namelen r) w).

Definition listen (s : SOCKET) (backlog : Z) (w : World) : Z * World :=
  let r := listen_result (os w) in (r, log (EListen s backlog r) w).

Definition accept (s : SOCKET) (w : World) : SOCKET * World :=
  if accept_ok (os w)
  then let '(c, w1) := new_socket w in (c, log (EAccept s c) w1)
  else (INVALID_SOCKET, log (EAccept s INVALID_SOCKET) w).

Definition connect (s : SOCKET) (addr : list byte) (namelen : Z)
    (w : World) : Z * World :=
  let r := connect_result (os w) in (r, log (EConnect s addr namelen r) w).

(** [recv( s, buf, len, 0 )]: at most [len] bytes of what is found are
    copied to the start of [buf], the rest of [buf] is left as it was; the
    result is the number of bytes copied, [0] when the peer has shut down,
    [SOCKET_ERROR] on failure (the only values [recv] returns). *)
Definition recv (s : SOCKET) (buf : Buffer) (len : Z) (w : World)
  : (Z * Buffer) * World :=
  match inbox w with
  | [] => ((0, buf), log (ERecv s len 0) w)
  | RecvError :: rest =>
      ((SOCKET_ERROR, buf), log (ERecv s len SOCKET_ERROR) (set_inbox rest w))
  | RecvBytes bs :: rest =>
      let got := firstn (Z.to_nat len) bs in
      let n := Z.of_nat (List.length got) in
      ((n, overwrite buf got), log (ERecv s len n) (set_inbox rest w))
  end.

(** [send( s, buf, len, 0 )]: the result is the system's. *)
Definition send (s : SOCKET) (buf : list byte) (len : Z) (w : World)
  : Z * World :=
  let r := send_result (os w) (nsend w) len in
  (r, log (ESend s (firstn (Z.to_nat len) buf) len r)
          (set_nsend (S (nsend w)) w)).

(** [closesocket( s )] closes an open descriptor and fails on any other
    value. *)
Definition closesocket (s : SOCKET) (w : World) : Z * World :=
  if is_open s w
  then (0, log (EClosesocket s 0)
               (set_open (remove Z.eq_dec s (open_sockets w)) w))
  else (SOCKET_ERROR, log (EClosesocket s SOCKET_ERROR) w).

End Winsock.
Import Winsock.

(* ================================================================== *)
(** ** Scopes, exceptions and destructors *)

(** [std::runtime_error]: the object holds its message and nothing else. *)
Record runtime_error := { what : string }.

(** How a computation ends.  [Undefined] stands for what C++ gives no
    meaning to (a null pointer dereferenced, a store outside an array, a
    string read that leaves its array) and
    for a loop that would go on after the model's supply of answers is
    used up; the functions below never end that way
    ([setup_server_defined], [setup_client_defined]). *)
Inductive Result (A : Type) :=
| Returns (a : A)
| Throws (e : runtime_error)
| Undefined.

Arguments Returns {A} a.
Arguments Throws {A} e.
Arguments Undefined {A}.

(** [struct RAIIRawSocketInfos]; [res] is [None] for [nullptr]. *)
Record RAIIRawSocketInfos := {
  res : option (addrinfo * list addrinfo);
  socketFd : SOCKET;
  clientFd : SOCKET
}.

(** [RAIIRawSocketInfos()] *)
Definition RAIIRawSocketInfos_ctor : RAIIRawSocketInfos :=
  {| res := None; socketFd := -1; clientFd := -1 |}.

(** [~RAIIRawSocketInfos()] *)
Definition RAIIRawSocketInfos_dtor (this : RAIIRawSocketInfos) (w : World)
  : World :=
  let w1 := if negb (clientFd this =? -1)
            then snd (closesocket (clientFd this) w) else w in
  let w2 := if negb (socketFd this =? -1)
            then snd (closesocket (socketFd this) w1) else w1 in
  match res this with
  | Some _ => snd (freeaddrinfo w2)
  | None => w2
  end.

(** The state of a function body: the world and its local [socketInfos]. *)
Record Scope := {
  world : World;
  socketInfos : RAIIRawSocketInfos
}.

Definition M (A : Type) : Type := Scope -> Result A * Scope.

Definition ret {A} (a : A) : M A := fun sc => (Returns a, sc).

Definition bind_ {A B} (c : M A) (k : A -> M B) : M B :=
  fun sc =>
    match c sc with
    | (Returns a, sc1) => k a sc1
    | (Throws e, sc1) => (Throws e, sc1)
    | (Undefined, sc1) => (Undefined, sc1)
    end.

(** [throw std::runtime_error( msg )] *)
Definition throw {A} (msg : string) : M A :=
  fun sc => (Throws {| what := msg |}, sc).

Definition undefined {A} : M A := fun sc => (Undefined, sc).

(** A call of the socket library; its arguments may read [socketInfos]. *)
Definition call {A} (f : RAIIRawSocketInfos -> World -> A * World) : M A :=
  fun sc =>
    let '(a, w) := f (socketInfos sc) (world sc) in
    (Returns a, {| world := w; socketInfos := socketInfos sc |}).

Definition assign (f : RAIIRawSocketInfos -> RAIIRawSocketInfos) : M unit :=
  fun sc => (Returns tt, {| world := world sc; socketInfos := f (socketInfos sc) |}).

Definition set_res (p : option (addrinfo * list addrinfo)) : M unit :=
  assign (fun si => {| res := p; socketFd := socketFd si; clientFd := clientFd si |}).

Definition set_socketFd (s : SOCKET) : M unit :=
  assign (fun si => {| res := res si; socketFd := s; clientFd := clientFd si |}).

Definition set_clientFd (s : SOCKET) : M unit :=
  assign (fun si => {| res := res si; socketFd := socketFd si; clientFd := s |}).

(** [socketInfos.res->]: the first node of the list. *)
Definition deref_res : M addrinfo :=
  fun sc =>
    match res (socketInfos sc) with
    | Some (first, _) => (Returns first, sc)
    | None => (Undefined, sc)
    end.

Declare Scope cpp_scope.
Delimit Scope cpp_scope with cpp.

Notation "x <- c ;; k" := (bind_ c (fun x => k))
  (at level 61, c at next level, right associativity) : cpp_scope.
Notation "' p <- c ;; k" := (bind_ c (fun x => match x with p => k end))
  (at level 61, p pattern, c at next level, right associativity) : cpp_scope.
Notation "c ;; k" := (bind_ c (fun _ => k))
  (at level 61, right associativity) : cpp_scope.

Local Open Scope cpp_scope.

(** A [const char*] into an array reaches a terminator inside the array. *)
Definition terminated (p : Buffer) : bool :=
  existsb (fun b => Byte.eqb b NUL) p.

(** A line on [std::cout]. *)
Definition write_line (line : list byte) (w : World) : unit * World :=
  (tt, set_cout (cout w ++ [line]) w).

(** [std::cout << prefix << p << std::endl] for a [const char* p] into an
    array: the prefix and the characters before the first zero.  Without a
    zero in the array the read would leave the array. *)
Definition cout_line (prefix : string) (p : Buffer) : M unit :=
  if terminated p
  then call (fun _ => write_line (chars prefix ++ c_str p))
  else undefined.

(** A function whose body declares [RAIIRawSocketInfos socketInfos]: the
    object is constructed, the body runs, and the destructor runs when the
    body returns or throws. *)
Definition run_scope {A} (body : M A) (w : World) : Result A * World :=
  let '(r, sc) := body {| world := w; socketInfos := RAIIRawSocketInfos_ctor |} in
  match r with
  | Undefined => (Undefined, world sc)
  | _ => (r, RAIIRawSocketInfos_dtor (socketInfos sc) (world sc))
  end.

(* ================================================================== *)
(** ** The server and the client *)

Definition END_MESSAGE : string := "END_MESSAGE".
Definition PORT_TEST : string := "20453".

(** [ZeroMemory( &hints, sizeof( hints ) )] and the three assignments. *)
Definition hints : addrinfo :=
  {| ai_flags := 0; ai_family := AF_UNSPEC; ai_socktype := SOCK_STREAM;
     ai_protocol := IPPROTO_TCP; ai_addrlen := 0; ai_addr := [] |}.

Definition buffer_size (b : Buffer) : Z := Z.of_nat (List.length b).

(** The [while] of [setup_server]; the result is [bytesRead] when the loop
    is left.  [rounds] bounds the rounds after the first: every round that
    goes on has taken one answer from the inbox, so the inbox's length is
    enough and the bound is never met ([server_loop_frame]). *)
Fixpoint server_loop (rounds : nat) (buffer : Buffer) : M Z :=
  '(bytesRead, buffer) <-
     call (fun si => recv (clientFd si) buffer (buffer_size buffer - 1)) ;;
  if 0 <? bytesRead then
    match store buffer bytesRead NUL with
    | None => undefined
    | Some buffer =>
        cout_line "server received: " buffer ;;
        if string_ref_eq buffer END_MESSAGE then ret bytesRead   (* break *)
        else
          sent <- call (fun si => send (clientFd si) (chars "OK") 2) ;;
          if negb (sent =? 2) then throw "send error"
          else match rounds with
               | O => undefined
               | S k => server_loop k buffer
               end
    end
  else ret bytesRead.

(** How many answers the inbox still holds: the bound of the loop. *)
Definition answers_left : M nat :=
  fun sc => (Returns (List.length (inbox (world sc))), sc).

Definition setup_server_body (stack : list byte) : M unit :=
  '(status, out) <- call (fun _ => getaddrinfo None PORT_TEST hints) ;;
  set_res out ;;
  if negb (status =? 0) then throw "getaddrinfo error" else
  ai <- deref_res ;;
  s <- call (fun _ => socket (ai_family ai) (ai_socktype ai) (ai_protocol ai)) ;;
  set_socketFd s ;;
  if s =? -1 then throw "socket error" else
  r <- call (fun si => bind (socketFd si) (ai_addr ai) (ai_addrlen ai)) ;;
  if r =? -1 then throw "bind error" else
  let backlog := 2 in
  r <- call (fun si => listen (socketFd si) backlog) ;;
  if r =? -1 then throw "listen error" else
  c <- call (fun si => accept (socketFd si)) ;;
  set_clientFd c ;;
  if c =? -1 then throw "client error" else
  let buffer := uninitialised 64 stack in
  rounds <- answers_left ;;
  bytesRead <- server_loop rounds buffer ;;
  if bytesRead =? -1 then throw "recv error" else ret tt.

Definition setup_server (stack : list byte) (w : World) : Result unit * World :=
  run_scope (setup_server_body stack) w.

Definition setup_client_body (stack : list byte) : M unit :=
  '(status, out) <- call (fun _ => getaddrinfo None PORT_TEST hints) ;;
  set_res out ;;
  if negb (status =? 0) then throw "getaddrinfo error" else
  ai <- deref_res ;;
  s <- call (fun _ => socket (ai_family ai) (ai_socktype ai) (ai_protocol ai)) ;;
  set_socketFd s ;;
  if s =? -1 then throw "socket error" else
  r <- call (fun si => connect (socketFd si) (ai_addr ai) (ai_addrlen ai)) ;;
  if r =? -1 then throw "connect error" else
  let m1 := "hello"%string in
  let sizeM := strlen m1 in
  sent <- call (fun si => send (socketFd si) (chars m1) sizeM) ;;
  if negb (sent =? sizeM) then throw "send error" else
  let buffer := uninitialised 64 stack in
  '(bytesRead, buffer) <-
     call (fun si => recv (socketFd si) buffer (buffer_size buffer - 1)) ;;
  if bytesRead <? 0 then throw "recv error" else
  match store buffer bytesRead NUL with
  | None => undefined
  | Some buffer =>
      cout_line "client received: " buffer ;;
      let sizeM := strlen END_MESSAGE in
      sent <- call (fun si => send (socketFd si) (chars END_MESSAGE) sizeM) ;;
      if negb (sent =? sizeM) then throw "send error" else ret tt
  end.

Definition setup_client (stack : list byte) (w : World) : Result unit * World :=
  run_scope (setup_client_body stack) w.

(** A process with no socket open, before its first call. *)
Definition boot (o : OS) (incoming : list RecvAnswer) : World :=
  {| os := o; inbox := incoming; nsend := 0%nat; open_sockets := [];
     live_addrinfo := 0%nat; trace := []; cout := [] |}.

Definition an_address : addrinfo :=
  {| ai_flags := 0; ai_family := 2; ai_socktype := SOCK_STREAM;
     ai_protocol := IPPROTO_TCP; ai_addrlen := 16; ai_addr := [] |}.

(** A system on which every call succeeds and every send is complete. *)
Definition kind_os : OS :=
  {| gai_status := 0; gai_first := an_address; gai_more := [];
     socket_ok := true; bind_result := 0; listen_result := 0;
     accept_ok := true; connect_result := 0;
     send_result := fun _ len => len |}.

(* ================================================================== *)
(** ** Vocabulary of the statements *)

(** A delivery that [recv] hands over whole and that does not read as the
    sentinel. *)
Definition ordinary (m : list byte) : Prop :=
  (1 <= List.length m <= 63)%nat /\ c_str m <> chars END_MESSAGE.

(** A delivery that reads as the sentinel. *)
Definition reads_as_sentinel (m : list byte) : Prop :=
  (List.length m <= 63)%nat /\ c_str m = chars END_MESSAGE.

(** The calls of one round that acknowledges [m] on the connection [c]. *)
Definition acknowledged (c : SOCKET) (m : list byte) : list Event :=
  [ERecv c 63 (Z.of_nat (List.length m)); ESend c (chars "OK") 2 2].

(** The world after [recv] has taken [n] bytes and left [rest]. *)
Definition received (c : SOCKET) (n : Z) (rest : list RecvAnswer) (w : World)
  : World :=
  log (ERecv c 63 n) (set_inbox rest w).

(** The scope [sc] with its world replaced. *)
Definition in_scope (sc : Scope) (w' : World) : Scope :=
  {| world := w'; socketInfos := socketInfos sc |}.

(** The world after the server has received [m] whole and written its
    line. *)
Definition heard (c : SOCKET) (m : list byte) (rest : list RecvAnswer)
    (w : World) : World :=
  let w1 := received c (Z.of_nat (List.length m)) rest w in
  set_cout (cout w1 ++ [chars "server received: " ++ c_str m]) w1.

(** The world after a [send] of "OK" returned [r]. *)
Definition replied (c : SOCKET) (r : Z) (w : World) : World :=
  log (ESend c (chars "OK") 2 r) (set_nsend (S (nsend w)) w).

(** Events of the exchange on the connection [c]: [recv] and [send] on it. *)
Definition on_connection (c : SOCKET) (e : Event) : Prop :=
  match e with
  | ERecv s _ _ => s = c
  | ESend s _ _ _ => s = c
  | _ => False
  end.

(** Symbolic execution of a function body up to the next test on an answer
    of the system. *)
Ltac run :=
  cbv beta iota zeta delta
    [setup_server setup_client run_scope setup_server_body setup_client_body
     answers_left bind_ call assign set_res set_socketFd set_clientFd ret
     throw undefined deref_res getaddrinfo Winsock.socket Winsock.bind listen
     accept connect new_socket log set_inbox set_nsend set_open set_live
     set_cout write_line
     negb INVALID_SOCKET SOCKET_ERROR RAIIRawSocketInfos_ctor];
  cbn [world socketInfos res socketFd clientFd fst snd
       os inbox nsend open_sockets live_addrinfo trace cout
       gai_status gai_first gai_more socket_ok bind_result listen_result
       accept_ok connect_result send_result Z.eqb Pos.eqb].

(** The world and its answers, field by field. *)
Ltac open_world w :=
  let o := fresh "o" in
  destruct w as [o ? ? ? ? ? ?]; destruct o;
  cbn [os inbox nsend open_sockets live_addrinfo trace cout
       gai_status gai_first gai_more socket_ok bind_result listen_result
       accept_ok connect_result send_result] in *.

(** The descriptors a run starting in [w] is given. *)
Definition listening_socket (w : World) : SOCKET := fresh_socket (open_sockets w).
Definition accepted_socket (w : World) : SOCKET :=
  fresh_socket (listening_socket w :: open_sockets w).
Definition connected_socket (w : World) : SOCKET := fresh_socket (open_sockets w).

(** Every call up to [accept] succeeds. *)
Definition server_accepts (w : World) : Prop :=
  gai_status (os w) = 0 /\ socket_ok (os w) = true
  /\ bind_result (os w) <> -1 /\ listen_result (os w) <> -1
  /\ accept_ok (os w) = true.

(** Every call up to [connect] succeeds. *)
Definition client_connects (w : World) : Prop :=
  gai_status (os w) = 0 /\ socket_ok (os w) = true
  /\ connect_result (os w) <> -1.

(** The calls of a run that starts in [w], with the results [w] gives. *)
Definition e_lookup (w : World) : Event :=
  EGetaddrinfo None PORT_TEST hints (gai_status (os w)).

Definition e_socket (w : World) (result : SOCKET) : Event :=
  let ai := gai_first (os w) in
  ESocket (ai_family ai) (ai_socktype ai) (ai_protocol ai) result.

Definition e_bind (w : World) : Event :=
  let ai := gai_first (os w) in
  EBind (listening_socket w) (ai_addr ai) (ai_addrlen ai) (bind_result (os w)).

Definition e_listen (w : World) : Event :=
  EListen (listening_socket w) 2 (listen_result (os w)).

Definition e_accept (w : World) (result : SOCKET) : Event :=
  EAccept (listening_socket w) result.

Definition e_connect (w : World) : Event :=
  let ai := gai_first (os w) in
  EConnect (connected_socket w) (ai_addr ai) (ai_addrlen ai)
           (connect_result (os w)).

Definition e_hello (w : World) : Event :=
  ESend (connected_socket w) (chars "hello") 5 (send_result (os w) (nsend w) 5).

Definition e_end (w : World) : Event :=
  ESend (connected_socket w) (chars END_MESSAGE) 11
        (send_result (os w) (S (nsend w)) 11).

(** What the first [recv] of a run returns. *)
Definition first_read (w : World) : Z :=
  match inbox w with
  | [] => 0
  | RecvError :: _ => -1
  | RecvBytes bs :: _ => Z.of_nat (List.length (firstn 63 bs))
  end.

(** The bytes the first [recv] of a run copies. *)
Definition first_bytes (w : World) : list byte :=
  match inbox w with
  | RecvBytes bs :: _ => firstn 63 bs
  | _ => []
  end.

Definition e_recv (w : World) : Event :=
  ERecv (connected_socket w) 63 (first_read w).

(** The calls of the server up to the loop, when they succeed. *)
Definition server_prologue (w : World) : list Event :=
  [e_lookup w; e_socket w (listening_socket w); e_bind w; e_listen w;
   e_accept w (accepted_socket w)].

(** The calls of the server's destructor after a successful [accept]. *)
Definition server_epilogue (w : World) : list Event :=
  [EClosesocket (accepted_socket w) 0; EClosesocket (listening_socket w) 0;
   EFreeaddrinfo].

(** The calls of the client up to the exchange, when they succeed. *)
Definition client_prologue (w : World) : list Event :=
  [e_lookup w; e_socket w (connected_socket w); e_connect w].

(** The calls of the client's destructor after a successful [socket]. *)
Definition client_epilogue (w : World) : list Event :=
  [EClosesocket (connected_socket w) 0; EFreeaddrinfo].

Definition error (msg : string) : Result unit := Throws {| what := msg |}.

(** The ways [setup_server] ends, with the calls it has made by then. *)
Inductive ServerRun (w : World) : Result unit -> list Event -> Prop :=
| SR_getaddrinfo :
    gai_status (os w) <> 0 ->
    ServerRun w (error "getaddrinfo error") [e_lookup w]
| SR_socket :
    gai_status (os w) = 0 -> socket_ok (os w) = false ->
    ServerRun w (error "socket error")
      [e_lookup w; e_socket w (-1); EFreeaddrinfo]
| SR_bind :
    gai_status (os w) = 0 -> socket_ok (os w) = true ->
    bind_result (os w) = -1 ->
    ServerRun w (error "bind error")
      [e_lookup w; e_socket w (listening_socket w); e_bind w;
       EClosesocket (listening_socket w) 0; EFreeaddrinfo]
| SR_listen :
    gai_status (os w) = 0 -> socket_ok (os w) = true ->
    bind_result (os w) <> -1 -> listen_result (os w) = -1 ->
    ServerRun w (error "listen error")
      [e_lookup w; e_socket w (listening_socket w); e_bind w; e_listen w;
       EClosesocket (listening_socket w) 0; EFreeaddrinfo]
| SR_accept :
    gai_status (os w) = 0 -> socket_ok (os w) = true ->
    bind_result (os w) <> -1 -> listen_result (os w) <> -1 ->
    accept_ok (os w) = false ->
    ServerRun w (error "client error")
      [e_lookup w; e_socket w (listening_socket w); e_bind w; e_listen w;
       e_accept w (-1); EClosesocket (listening_socket w) 0; EFreeaddrinfo]
| SR_exchange (r : Result unit) (io : list Event) :
    server_accepts w ->
    Forall (on_connection (accepted_socket w)) io ->
    r = Returns tt \/ r = error "send error" \/ r = error "recv error" ->
    ServerRun w r (server_prologue w ++ io ++ server_epilogue w).

(** The ways [setup_client] ends, with the calls it has made by then. *)
Inductive ClientRun (w : World) : Result unit -> list Event -> Prop :=
| CR_getaddrinfo :
    gai_status (os w) <> 0 ->
    ClientRun w (error "getaddrinfo error") [e_lookup w]
| CR_socket :
    gai_status (os w) = 0 -> socket_ok (os w) = false ->
    ClientRun w (error "socket error")
      [e_lookup w; e_socket w (-1); EFreeaddrinfo]
| CR_connect :
    gai_status (os w) = 0 -> socket_ok (os w) = true ->
    connect_result (os w) = -1 ->
    ClientRun w (error "connect error")
      (client_prologue w ++ client_epilogue w)
| CR_hello :
    client_connects w ->
    send_result (os w) (nsend w) 5 <> 5 ->
    ClientRun w (error "send error")
      (client_prologue w ++ [e_hello w] ++ client_epilogue w)
| CR_recv :
    client_connects w ->
    send_result (os w) (nsend w) 5 = 5 ->
    first_read w < 0 ->
    ClientRun w (error "recv error")
      (client_prologue w ++ [e_hello w; e_recv w] ++ client_epilogue w)
| CR_end :
    client_connects w ->
    send_result (os w) (nsend w) 5 = 5 ->
    0 <= first_read w ->
    send_result (os w) (S (nsend w)) 11 <> 11 ->
    ClientRun w (error "send error")
      (client_prologue w ++ [e_hello w; e_recv w; e_end w] ++ client_epilogue w)
| CR_complete :
    client_connects w ->
    send_result (os w) (nsend w) 5 = 5 ->
    0 <= first_read w ->
    send_result (os w) (S (nsend w)) 11 = 11 ->
    ClientRun w (Returns tt)
      (client_prologue w ++ [e_hello w; e_recv w; e_end w] ++ client_epilogue w).

(** A run that started in [w] has ended with [r] after the calls [evs], with
    the descriptors and address lists of [w], no more and no less. *)
Definition exits (out : Result unit * World) (w : World) (r : Result unit)
    (evs : list Event) : Prop :=
  fst out = r
  /\ os (snd out) = os w
  /\ open_sockets (snd out) = open_sockets w
  /\ live_addrinfo (snd out) = live_addrinfo w
  /\ trace (snd out) = trace w ++ evs.

(** The server's scope when the loop is entered. *)
Definition accepted_scope (w : World) : Scope :=
  {| world :=
       {| os := os w; inbox := inbox w; nsend := nsend w;
          open_sockets := accepted_socket w :: listening_socket w :: open_sockets w;
          live_addrinfo := S (live_addrinfo w);
          trace := trace w ++ server_prologue w;
          cout := cout w |};
     socketInfos :=
       {| res := Some (gai_first (os w), gai_more (os w));
          socketFd := listening_socket w;
          clientFd := accepted_socket w |} |}.

(** What [setup_server] does with the loop's outcome: the test on
    [bytesRead], then the destructor. *)
Definition after_loop (x : Result Z * Scope) : Result unit * World :=
  match x with
  | (Returns bytesRead, sc) =>
      (if bytesRead =? -1 then Throws {| what := "recv error" |} else Returns tt,
       RAIIRawSocketInfos_dtor (socketInfos sc) (world sc))
  | (Throws e, sc) => (Throws e, RAIIRawSocketInfos_dtor (socketInfos sc) (world sc))
  | (Undefined, sc) => (Undefined, world sc)
  end.

(** A system whose [k]-th send writes one byte less than asked. *)
Definition short_at (k : nat) : OS :=
  {| gai_status := 0; gai_first := an_address; gai_more := [];
     socket_ok := true; bind_result := 0; listen_result := 0;
     accept_ok := true; connect_result := 0;
     send_result := fun i len => if Nat.eqb i k then len - 1 else len |}.


(** A system that refuses the connection. *)
Definition nobody_listens : OS :=
  {| gai_status := 0; gai_first := an_address; gai_more := [];
     socket_ok := true; bind_result := 0; listen_result := 0;
     accept_ok := true; connect_result := -1;
     send_result := fun _ len => len |}.






(* ================================================================== *)
(** ** The server's exchange as a function of the deliveries *)

(** What the server's loop does on the connection [c], read off the
    deliveries and the results of [send] ([sr], from the [k]-th on): the
    value of [bytesRead] when the loop is left or the error thrown, the
    calls made, the deliveries left unread and the number of sends made. *)
Fixpoint exchange (c : SOCKET) (sr : nat -> Z -> Z) (k : nat)
    (incoming : list RecvAnswer)
  : Result Z * (list Event * (list RecvAnswer * nat)) :=
  match incoming with
  | [] => (Returns 0, ([ERecv c 63 0], ([], k)))
  | RecvError :: rest => (Returns (-1), ([ERecv c 63 (-1)], (rest, k)))
  | RecvBytes m :: rest =>
      let got := firstn 63 m in
      let n := Z.of_nat (List.length got) in
      if 0 <? n then
        if bytes_eqb (c_str got) (chars END_MESSAGE)
        then (Returns n, ([ERecv c 63 n], (rest, k)))
        else
          let r := sr k 2 in
          if r =? 2 then
            let '(res, (evs, unread)) := exchange c sr (S k) rest in
            (res, (ERecv c 63 n :: ESend c (chars "OK") 2 2 :: evs, unread))
          else (Throws {| what := "send error" |},
                ([ERecv c 63 n; ESend c (chars "OK") 2 r], (rest, S k)))
      else (Returns 0, ([ERecv c 63 0], (rest, k)))
  end.

(** The lines the server's loop writes to [std::cout], read off in the
    same way: one for each receive that returned bytes. *)
Fixpoint exchange_lines (sr : nat -> Z -> Z) (k : nat)
    (incoming : list RecvAnswer) : list (list byte) :=
  match incoming with
  | RecvBytes m :: rest =>
      let got := firstn 63 m in
      if 0 <? Z.of_nat (List.length got) then
        (chars "server received: " ++ c_str got)
        :: (if bytes_eqb (c_str got) (chars END_MESSAGE) then []
            else if sr k 2 =? 2 then exchange_lines sr (S k) rest else [])
      else []
  | _ => []
  end.

(** The world after the calls [io] of an exchange that left [unread] unread,
    brought the number of sends to [k] and wrote [lines]. *)
Definition after_exchange (w : World) (io : list Event)
    (unread : list RecvAnswer * nat) (lines : list (list byte)) : World :=
  {| os := os w; inbox := fst unread; nsend := snd unread;
     open_sockets := open_sockets w; live_addrinfo := live_addrinfo w;
     trace := trace w ++ io; cout := cout w ++ lines |}.

(** [setup_server]'s test on [bytesRead] after the loop. *)
Definition server_outcome (r : Result Z) : Result unit :=
  match r with
  | Returns bytesRead => if bytesRead =? -1 then error "recv error" else Returns tt
  | Throws e => Throws e
  | Undefined => Undefined
  end.

(** Both sides are the same world, once the records are opened. *)
Ltac same_world :=
  unfold in_scope, replied, heard, received, log, set_inbox, set_nsend,
    set_cout, after_exchange;
  cbn [fst snd world socketInfos os inbox nsend open_sockets live_addrinfo
       trace cout];
  rewrite <- ?app_assoc, ?app_nil_r; reflexivity.

(** The calls of the exchange alternate: a receive, then, unless it ended
    the loop, one send of "OK"; only a send written in full is followed by
    another receive. *)
Inductive Alternating (c : SOCKET) : list Event -> Prop :=
| alt_last (n : Z) :
    -1 <= n <= 63 -> Alternating c [ERecv c 63 n]
| alt_short (n r : Z) :
    1 <= n <= 63 -> r <> 2 ->
    Alternating c [ERecv c 63 n; ESend c (chars "OK") 2 r]
| alt_more (n : Z) (evs : list Event) :
    1 <= n <= 63 -> Alternating c evs ->
    Alternating c (ERecv c 63 n :: ESend c (chars "OK") 2 2 :: evs).

(** The number of calls of [send] among the events. *)
Definition sends (evs : list Event) : nat :=
  List.length (filter (fun e => match e with ESend _ _ _ _ => true | _ => false end) evs).

(** The outcome of [setup_server] and its calls, read off the answers of the
    system and the deliveries. *)
Definition server_summary (w : World) : Result unit * list Event :=
  let s := listening_socket w in
  if negb (gai_status (os w) =? 0)
  then (error "getaddrinfo error", [e_lookup w])
  else if negb (socket_ok (os w))
  then (error "socket error", [e_lookup w; e_socket w (-1); EFreeaddrinfo])
  else if bind_result (os w) =? -1
  then (error "bind error",
        [e_lookup w; e_socket w s; e_bind w; EClosesocket s 0; EFreeaddrinfo])
  else if listen_result (os w) =? -1
  then (error "listen error",
        [e_lookup w; e_socket w s; e_bind w; e_listen w; EClosesocket s 0;
         EFreeaddrinfo])
  else if negb (accept_ok (os w))
  then (error "client error",
        [e_lookup w; e_socket w s; e_bind w; e_listen w; e_accept w (-1);
         EClosesocket s 0; EFreeaddrinfo])
  else
    let x := exchange (accepted_socket w) (send_result (os w)) (nsend w) (inbox w) in
    (server_outcome (fst x),
     server_prologue w ++ fst (snd x) ++ server_epilogue w).

(** The calls a run that started in [w] has added to the trace. *)
Definition calls_since (w : World) (out : Result unit * World) : list Event :=
  skipn (List.length (trace w)) (trace (snd out)).

(** The payloads of the sends among the events, in order. *)
Definition sent (evs : list Event) : list (list byte) :=
  flat_map (fun e => match e with ESend _ b _ _ => [b] | _ => [] end) evs.

(** The number of calls of [recv] among the events. *)
Definition recvs (evs : list Event) : nat :=
  List.length (filter (fun e => match e with ERecv _ _ _ => true | _ => false end) evs).

(** The world [w] on a system whose lookup returns [l] after the first
    address. *)
Definition with_more (l : list addrinfo) (w : World) : World :=
  {| os := {| gai_status := gai_status (os w); gai_first := gai_first (os w);
              gai_more := l; socket_ok := socket_ok (os w);
              bind_result := bind_result (os w);
              listen_result := listen_result (os w);
              accept_ok := accept_ok (os w);
              connect_result := connect_result (os w);
              send_result := send_result (os w) |};
     inbox := inbox w; nsend := nsend w; open_sockets := open_sockets w;
     live_addrinfo := live_addrinfo w; trace := trace w; cout := cout w |}.


(* ================================================================== *)
(** ** FunctionCallTestSuite.cpp: callables, [call_n] and the lambdas *)

(** [int]: 32 bits, two's complement.  C++ leaves signed overflow
    undefined: the wrap-around only makes the functions below total, and
    every statement about them assumes that no operation overflows. *)
Definition INT_MAX : Z := 2147483647.
Definition INT_MIN : Z := -2147483648.
Definition int_wrap (z : Z) : Z := (z + 2147483648) mod 4294967296 - 2147483648.

(** What [call_n] asks of its argument [f]: [f()] gives an [int], and may
    change [f]. *)
Class Callable (F : Type) := invoke : F -> Z * F.

(** [inline int realImplementation() { return 1; }] *)
Definition realImplementation (_ : unit) : Z := 1.

(** [struct ObjectFunctor { int operator()() const { return 1; } };] *)
Inductive ObjectFunctor := ObjectFunctor_ctor.

(** [std::bind( &realImplementation )]: the object keeps the function. *)
Record BindObject := { bound : unit -> Z }.

(** The closure of [[] { return 1; }]. *)
Inductive Lambda1 := Lambda1_ctor.

#[export] Instance function_callable : Callable (unit -> Z) :=
  fun f => (f tt, f).
#[export] Instance functor_callable : Callable ObjectFunctor :=
  fun this => (1, this).
#[export] Instance bind_callable : Callable BindObject :=
  fun b => (bound b tt, b).
#[export] Instance lambda_callable : Callable Lambda1 :=
  fun this => (1, this).

(** The loop of [call_n], from [i] with the sum [res] so far:
    [for ( ; i < n; ++i ) res += f();].  ([++i] cannot overflow, [i < n].) *)
Equations call_n_from {F : Type} `{Callable F} (f : F) (n i res : Z) : Z * F
  by wf (Z.to_nat (n - i)) lt :=
  call_n_from f n i res with Z_lt_dec i n := {
    | left _ => let '(v, f') := invoke f in
                call_n_from f' n (i + 1) (int_wrap (res + v))
    | right _ => (res, f) }.
Next Obligation. lia. Qed.

(** [auto call_n = [] ( auto& f, auto n ) { auto res = 0; for ...; return res; }];
    the second component is [f] after the calls. *)
Definition call_n {F : Type} `{Callable F} (f : F) (n : Z) : Z * F :=
  call_n_from f n 0 0.

(** The four bodies handed to [tools::benchmark]. *)
Definition bind_body (n : Z) : Z :=
  fst (call_n {| bound := realImplementation |} n).
Definition direct_body (n : Z) : Z := fst (call_n realImplementation n).
Definition functor_body (n : Z) : Z := fst (call_n ObjectFunctor_ctor n).
Definition lambda_body (n : Z) : Z := fst (call_n Lambda1_ctor n).

(** A callable that returns [v] at every call and stays as it is. *)
Definition constant {F : Type} `{Callable F} (f : F) (v : Z) : Prop :=
  invoke f = (v, f).

(** The three lambdas that capture [captured] by reference: what a call
    with [x] makes of the variable. *)
Definition l0 (x captured : Z) : Z := int_wrap (captured + x).
Definition l1 (x captured : Z) : Z := int_wrap (captured - x).
Definition l2 (x captured : Z) : Z := int_wrap (x + 1).

(** [fs], after the three [emplace_back]. *)
Definition fs : list (Z -> Z -> Z) := [l0; l1; l2].

(** [for ( auto& f : fs ) f( x );] *)
Definition call_each (fs : list (Z -> Z -> Z)) (x captured : Z) : Z :=
  fold_left (fun c f => f x c) fs captured.

(** The closure of [[captured] () mutable { ++captured; return captured; }]:
    it holds its own copy of the variable. *)
Record MutableLambda := { copy_of_captured : Z }.

#[export] Instance mutable_callable : Callable MutableLambda :=
  fun this =>
    let c := int_wrap (copy_of_captured this + 1) in
    (c, {| copy_of_captured := c |}).

(** [k] calls in a row: the values returned, and the closure afterwards. *)
Fixpoint invoke_times {F : Type} `{Callable F} (k : nat) (f : F) : list Z * F :=
  match k with
  | O => ([], f)
  | S k' => let '(v, f1) := invoke f in
            let '(vs, f2) := invoke_times k' f1 in
            (v :: vs, f2)
  end.

(** The values [LambdaDetailsTest] checks, for a variable that starts as
    [captured0] and lambdas called with [x] (42 and 0 in the test): the
    variable after the loop, the two results of [lm0], the result of its
    copy [lm1], and the variable at the end. *)
Definition LambdaDetailsTest (captured0 x : Z) : Z * Z * Z * Z * Z :=
  let captured := call_each fs x captured0 in
  let lm0 := {| copy_of_captured := captured |} in
  let '(r1, lm0) := invoke lm0 in
  let '(r2, lm0) := invoke lm0 in
  let lm1 := lm0 in
  let '(r3, lm1) := invoke lm1 in
  (captured, r1, r2, r3, captured).

(* ================================================================== *)
(** ** BasicNetworkingTestSuite.cpp: the timer of SynchronousTimerTest *)

(** What the test uses of [boost::asio]: a [deadline_timer] has an expiry
    time (here in seconds from the construction of the timer) and a number
    of handlers waiting for it; setting a new expiry time cancels the
    waiting handlers, which are then run with an error code. *)
Module Asio.

Record deadline_timer := {
  expiry : Z;
  waiting : nat;
  cancelled : nat
}.

(** [deadline_timer t( io, seconds( d ) )] *)
Definition deadline_timer_ctor (d : Z) : deadline_timer :=
  {| expiry := d; waiting := 0; cancelled := 0 |}.

(** [t.expires_at()] *)
Definition expires_at (t : deadline_timer) : Z := expiry t.

(** [t.expires_at( time )] *)
Definition set_expires_at (time : Z) (t : deadline_timer) : deadline_timer :=
  {| expiry := time; waiting := 0; cancelled := (cancelled t + waiting t)%nat |}.

(** [t.async_wait( handler )] *)
Definition async_wait (t : deadline_timer) : deadline_timer :=
  {| expiry := expiry t; waiting := S (waiting t); cancelled := cancelled t |}.

End Asio.

(** The state of the test: the timer [t], the handler's [static int count],
    the handlers [io] has ready to run, and, as a record of what happened,
    the expiry time in force at each call of the handler (oldest first). *)
Record TimerTest := {
  t : Asio.deadline_timer;
  count : Z;
  ready : nat;
  ticks : list Z
}.

(** The lambda [timerTicker]; the error code is not looked at. *)
Definition timerTicker (s : TimerTest) : TimerTest :=
  let c := count s in
  let s1 := {| t := t s; count := int_wrap (c - 1); ready := ready s;
               ticks := ticks s ++ [Asio.expires_at (t s)] |} in
  if c >? 0 then
    {| t := Asio.async_wait
              (Asio.set_expires_at (Asio.expires_at (t s1) + 1) (t s1));
       count := count s1; ready := ready s1; ticks := ticks s1 |}
  else s1.

(** One step of [io.run()]: a ready handler is called; when none is ready,
    the timer expires and its waiting and cancelled handlers become
    ready. *)
Definition io_step (s : TimerTest) : TimerTest :=
  match ready s with
  | S r => timerTicker {| t := t s; count := count s; ready := r; ticks := ticks s |}
  | O => {| t := {| Asio.expiry := Asio.expiry (t s); Asio.waiting := 0;
                    Asio.cancelled := 0 |};
            count := count s;
            ready := (Asio.waiting (t s) + Asio.cancelled (t s))%nat;
            ticks := ticks s |}
  end.

(** [io] is out of work: [io.run()] returns. *)
Definition out_of_work (s : TimerTest) : bool :=
  match ready s, Asio.waiting (t s), Asio.cancelled (t s) with
  | O, O, O => true
  | _, _, _ => false
  end.

(** [io.run()], for at most [fuel] steps. *)
Fixpoint io_run (fuel : nat) (s : TimerTest) : option TimerTest :=
  if out_of_work s then Some s
  else match fuel with
       | O => None
       | S fuel' => io_run fuel' (io_step s)
       end.

(** The test, for a [count] that starts as [c] (5 the first time the test
    runs in a process). *)
Definition SynchronousTimerTest (c : Z) (fuel : nat) : option TimerTest :=
  let t0 := Asio.deadline_timer_ctor 2 in
  io_run fuel {| t := Asio.async_wait t0; count := c; ready := 0; ticks := [] |}.

(* ================================================================== *)
(** ** Facts about arrays and C strings *)

Section CStringFacts.

Lemma bytes_eqb_eq (a b : list byte) : bytes_eqb a b = true <-> a = b.
Proof.
  revert b; induction a as [|x a IH]; intros [|y b]; simpl;
    try (split; [discriminate | discriminate]); try tauto.
  rewrite andb_true_iff, IH. split.
  - intros [H ->]. apply byte_dec_bl in H. now subst.
  - intros H; injection H as -> ->. split; [now apply byte_dec_lb | reflexivity].
Qed.

Lemma bytes_eqb_neq (a b : list byte) : bytes_eqb a b = false <-> a <> b.
Proof.
  destruct (bytes_eqb a b) eqn:E.
  - apply bytes_eqb_eq in E. split; [discriminate | congruence].
  - split; [|reflexivity]. intros _ H. apply bytes_eqb_eq in H. congruence.
Qed.

Lemma uninitialised_length (n : nat) (stack : list byte) :
  List.length (uninitialised n stack) = n.
Proof.
  unfold uninitialised.
  rewrite length_firstn, length_app, repeat_length. lia.
Qed.

Lemma overwrite_length (a got : list byte) :
  (List.length got <= List.length a)%nat ->
  List.length (overwrite a got) = List.length a.
Proof.
  intros H. unfold overwrite. rewrite length_app, length_skipn. lia.
Qed.

(** The terminator is stored right after the bytes received. *)
Lemma store_overwrite (a got : list byte) (c : byte) :
  (List.length got < List.length a)%nat ->
  store (overwrite a got) (Z.of_nat (List.length got)) c
  = Some (got ++ c :: skipn (S (List.length got)) a).
Proof.
  intros H. unfold store.
  rewrite overwrite_length by lia.
  replace ((0 <=? Z.of_nat (List.length got))
           && (Z.of_nat (List.length got) <? Z.of_nat (List.length a)))
    with true
    by (symmetry; apply andb_true_iff; split;
        [apply Z.leb_le | apply Z.ltb_lt]; lia).
  rewrite Nat2Z.id. unfold overwrite. f_equal.
  rewrite firstn_app, firstn_all, Nat.sub_diag, firstn_O, app_nil_r.
  f_equal. f_equal.
  change (S (List.length got)) with (1 + List.length got)%nat.
  rewrite <- !skipn_skipn. f_equal.
  rewrite skipn_app, skipn_all, Nat.sub_diag. reflexivity.
Qed.

(** Nothing behind the first zero is part of the string. *)
Lemma c_str_terminated (got rest : list byte) :
  c_str (got ++ NUL :: rest) = c_str got.
Proof.
  induction got as [|b got IH]; simpl.
  - reflexivity.
  - destruct (Byte.eqb b NUL); [reflexivity | now rewrite IH].
Qed.

Lemma c_str_no_zero (l : list byte) : ~ In NUL l -> c_str l = l.
Proof.
  induction l as [|b l IH]; simpl; [reflexivity|]. intros H.
  destruct (Byte.eqb b NUL) eqn:E.
  - apply byte_dec_bl in E. tauto.
  - rewrite IH; tauto.
Qed.

End CStringFacts.

(* ================================================================== *)
(** ** Facts about descriptors *)

Section DescriptorFacts.

Lemma fresh_socket_above (open : list SOCKET) (s : SOCKET) :
  In s open -> s < fresh_socket open.
Proof.
  induction open as [|x open IH]; simpl; [tauto|].
  intros [->|H]; [lia|]. specialize (IH H). lia.
Qed.

Lemma fresh_socket_nonneg (open : list SOCKET) : 0 <= fresh_socket open.
Proof. induction open as [|x open IH]; simpl; lia. Qed.

Lemma fresh_socket_not_open (open : list SOCKET) :
  ~ In (fresh_socket open) open.
Proof. intros H. apply fresh_socket_above in H. lia. Qed.

Lemma fresh_socket_valid (open : list SOCKET) :
  (fresh_socket open =? -1) = false.
Proof. apply Z.eqb_neq. pose proof (fresh_socket_nonneg open). lia. Qed.

Lemma is_open_In (s : SOCKET) (w : World) :
  is_open s w = true <-> In s (open_sockets w).
Proof.
  unfold is_open. rewrite existsb_exists. split.
  - intros [x [H E]]. apply Z.eqb_eq in E. now subst.
  - intros H. exists s. split; [assumption | apply Z.eqb_refl].
Qed.

Lemma is_open_head (s : SOCKET) (w : World) (l : list SOCKET) :
  open_sockets w = s :: l -> is_open s w = true.
Proof. intros H. apply is_open_In. rewrite H. now left. Qed.

End DescriptorFacts.

(* ================================================================== *)
(** ** The destructor, case by case *)

Section Destructor.

(** Nothing was acquired: the destructor makes no call. *)
Lemma dtor_nothing (w : World) :
  RAIIRawSocketInfos_dtor {| res := None; socketFd := -1; clientFd := -1 |} w
  = w.
Proof. reflexivity. Qed.

(** The world after [closesocket] of the descriptor opened last. *)
Lemma closesocket_head (s : SOCKET) (l : list SOCKET) (w : World) :
  open_sockets w = s :: l -> ~ In s l ->
  closesocket s w
  = (0, log (EClosesocket s 0) (set_open l w)).
Proof.
  intros H N. unfold closesocket.
  rewrite (is_open_head s w l H), H, remove_cons, notin_remove by assumption.
  reflexivity.
Qed.


End Destructor.

(* ================================================================== *)
(** ** The server loop, round by round *)

Section ServerLoop.

Variable buffer : Buffer.
Hypothesis buffer_64 : List.length buffer = 64%nat.

Lemma server_loop_eq (rounds : nat) (b : Buffer) :
  server_loop rounds b =
  ('(bytesRead, b1) <-
     call (fun si => recv (clientFd si) b (buffer_size b - 1)) ;;
   if 0 <? bytesRead then
     match store b1 bytesRead NUL with
     | None => undefined
     | Some b2 =>
         cout_line "server received: " b2 ;;
         if string_ref_eq b2 END_MESSAGE then ret bytesRead
         else
           sent <- call (fun si => send (clientFd si) (chars "OK") 2) ;;
           if negb (sent =? 2) then throw "send error"
           else match rounds with
                | O => undefined
                | S k => server_loop k b2
                end
     end
   else ret bytesRead).
Proof. destruct rounds; reflexivity. Qed.

Lemma recv_bytes (c : SOCKET) (w : World) (m : list byte)
    (rest : list RecvAnswer) :
  inbox w = RecvBytes m :: rest -> (List.length m <= 63)%nat ->
  recv c buffer (buffer_size buffer - 1) w
  = ((Z.of_nat (List.length m), overwrite buffer m),
     received c (Z.of_nat (List.length m)) rest w).
Proof.
  intros H L. unfold recv, buffer_size, received. rewrite H, buffer_64.
  change (Z.of_nat 64 - 1) with 63. change (Z.to_nat 63) with 63%nat.
  now rewrite firstn_all2 by lia.
Qed.

Lemma recv_shutdown (c : SOCKET) (w : World) :
  inbox w = [] ->
  recv c buffer (buffer_size buffer - 1) w
  = ((0, buffer), log (ERecv c 63 0) w).
Proof.
  intros H. unfold recv, buffer_size. now rewrite H, buffer_64.
Qed.

Lemma recv_failed (c : SOCKET) (w : World) (rest : list RecvAnswer) :
  inbox w = RecvError :: rest ->
  recv c buffer (buffer_size buffer - 1) w
  = ((-1, buffer), received c (-1) rest w).
Proof.
  intros H. unfold recv, buffer_size, received. now rewrite H, buffer_64.
Qed.

(** After [recv] and [buffer[ bytesRead ] = 0] the comparison sees the
    bytes received, up to their first zero, and nothing else. *)
Lemma terminated_compare (m : list byte) (lit : string) :
  (List.length m <= 63)%nat ->
  exists b2,
    store (overwrite buffer m) (Z.of_nat (List.length m)) NUL = Some b2
    /\ List.length b2 = 64%nat
    /\ nth (List.length m) b2 x01 = NUL
    /\ string_ref_eq b2 lit = bytes_eqb (c_str m) (c_str (chars lit))
    /\ terminated b2 = true
    /\ c_str b2 = c_str m.
Proof.
  intros L. eexists. split; [apply store_overwrite; lia|].
  split; [|split; [|split; [|split]]].
  - rewrite length_app. cbn [List.length]. rewrite length_skipn. lia.
  - rewrite app_nth2, Nat.sub_diag by lia. reflexivity.
  - unfold string_ref_eq. now rewrite c_str_terminated.
  - unfold terminated. rewrite existsb_app. cbn [existsb].
    change (Byte.eqb NUL NUL) with true. cbn [orb]. apply orb_true_r.
  - apply c_str_terminated.
Qed.

End ServerLoop.

Section Rounds.

Variables (buffer : Buffer) (sc : Scope).
Hypothesis buffer_64 : List.length buffer = 64%nat.

Let c := clientFd (socketInfos sc).
Let w := world sc.

(** A round on an ordinary delivery: "OK" is sent, and the loop goes on
    exactly when [send] returns 2. *)
Lemma round_ordinary (rounds : nat) (m : list byte) (rest : list RecvAnswer) :
  inbox w = RecvBytes m :: rest -> ordinary m ->
  let w1 := heard c m rest w in
  let r := send_result (os w) (nsend w) 2 in
  exists b2, List.length b2 = 64%nat /\
    server_loop rounds buffer sc =
    if r =? 2
    then match rounds with
         | O => (Undefined, in_scope sc (replied c r w1))
         | S k => server_loop k b2 (in_scope sc (replied c r w1))
         end
    else (Throws {| what := "send error" |}, in_scope sc (replied c r w1)).
Proof.
  intros H [[L1 L2] N] w1 r.
  destruct (terminated_compare buffer buffer_64 m END_MESSAGE L2)
    as (b2 & Hs & Hl & _ & Hc & Ht & Hp).
  exists b2. split; [assumption|].
  rewrite server_loop_eq. unfold bind_ at 1, call at 1.
  fold w c. rewrite (recv_bytes buffer buffer_64 c w m rest H L2).
  replace (0 <? Z.of_nat (List.length m)) with true
    by (symmetry; apply Z.ltb_lt; lia).
  rewrite Hs. unfold cout_line. rewrite Ht, Hp, Hc.
  replace (bytes_eqb (c_str m) (c_str (chars END_MESSAGE))) with false
    by (symmetry; apply bytes_eqb_neq; exact N).
  unfold bind_, call, send, write_line. cbn [world socketInfos fst snd].
  fold c. fold (heard c m rest w). fold w1.
  change (os w1) with (os w). change (nsend w1) with (nsend w).
  fold r.
  destruct (r =? 2); [destruct rounds|]; reflexivity.
Qed.

(** A round on the sentinel: the loop is left, nothing is sent. *)
Lemma round_sentinel (rounds : nat) (m : list byte) (rest : list RecvAnswer) :
  inbox w = RecvBytes m :: rest -> reads_as_sentinel m ->
  server_loop rounds buffer sc
  = (Returns (Z.of_nat (List.length m)), in_scope sc (heard c m rest w)).
Proof.
  intros H [L E].
  destruct (terminated_compare buffer buffer_64 m END_MESSAGE L)
    as (b2 & Hs & Hl & _ & Hc & Ht & Hp).
  rewrite server_loop_eq. unfold bind_ at 1, call at 1.
  fold w c. rewrite (recv_bytes buffer buffer_64 c w m rest H L).
  assert (0 < List.length m)%nat as P.
  { destruct m; [discriminate E | simpl; lia]. }
  replace (0 <? Z.of_nat (List.length m)) with true
    by (symmetry; apply Z.ltb_lt; lia).
  rewrite Hs. unfold cout_line. rewrite Ht, Hp, Hc.
  replace (bytes_eqb (c_str m) (c_str (chars END_MESSAGE))) with true
    by (symmetry; apply bytes_eqb_eq; exact E).
  reflexivity.
Qed.

(** A round that finds the peer gone: the loop is left with 0. *)
Lemma round_shutdown (rounds : nat) :
  inbox w = [] ->
  server_loop rounds buffer sc
  = (Returns 0, in_scope sc (log (ERecv c 63 0) w)).
Proof.
  intros H. rewrite server_loop_eq. unfold bind_ at 1, call at 1.
  fold w c. now rewrite (recv_shutdown buffer buffer_64 c w H).
Qed.

(** A round in which [recv] fails: the loop is left with -1. *)
Lemma round_failed (rounds : nat) (rest : list RecvAnswer) :
  inbox w = RecvError :: rest ->
  server_loop rounds buffer sc
  = (Returns (-1), in_scope sc (received c (-1) rest w)).
Proof.
  intros H. rewrite server_loop_eq. unfold bind_ at 1, call at 1.
  fold w c. now rewrite (recv_failed buffer buffer_64 c w rest H).
Qed.

End Rounds.

Section Loop.

Lemma in_scope_self (sc : Scope) : in_scope sc (world sc) = sc.
Proof. now destruct sc. Qed.

(** A round on an empty delivery reads as a shutdown. *)
Lemma round_empty (buffer : Buffer) (sc : Scope) (rounds : nat)
    (rest : list RecvAnswer) :
  List.length buffer = 64%nat ->
  inbox (world sc) = RecvBytes [] :: rest ->
  server_loop rounds buffer sc
  = (Returns 0,
     in_scope sc (received (clientFd (socketInfos sc)) 0 rest (world sc))).
Proof.
  intros B H. rewrite server_loop_eq. unfold bind_ at 1, call at 1.
  rewrite (recv_bytes buffer B _ _ [] rest H) by (simpl; lia).
  reflexivity.
Qed.

(** [recv] takes at most 63 bytes of a delivery: a longer one behaves as
    its first 63 bytes. *)
Lemma server_loop_truncates (buffer : Buffer) (sc : Scope) (rounds : nat)
    (m : list byte) (rest : list RecvAnswer) :
  List.length buffer = 64%nat ->
  inbox (world sc) = RecvBytes m :: rest ->
  server_loop rounds buffer sc
  = server_loop rounds buffer
      (in_scope sc (set_inbox (RecvBytes (firstn 63 m) :: rest) (world sc))).
Proof.
  intros B H. rewrite !(server_loop_eq rounds buffer).
  unfold bind_ at 1, call at 1.
  match goal with
  | |- _ = bind_ ?c ?k ?s => change (bind_ c k s) with
        (match c s with
         | (Returns a, sc1) => k a sc1
         | (Throws e, sc1) => (Throws e, sc1)
         | (Undefined, sc1) => (Undefined, sc1)
         end)
  end.
  unfold call. cbn [world socketInfos in_scope].
  unfold recv, buffer_size. rewrite H, B. cbn [inbox set_inbox].
  change (Z.to_nat (Z.of_nat 64 - 1)) with 63%nat.
  rewrite firstn_firstn, Nat.min_id. reflexivity.
Qed.

(** Rounds on ordinary deliveries, all acknowledged in full. *)
Lemma ordinary_rounds (pre : list (list byte)) :
  forall (buffer : Buffer) (sc : Scope) (tail : list RecvAnswer)
         (rounds : nat),
    List.length buffer = 64%nat ->
    inbox (world sc) = map RecvBytes pre ++ tail ->
    Forall ordinary pre ->
    (forall i, (i < List.length pre)%nat ->
               send_result (os (world sc)) (nsend (world sc) + i) 2 = 2) ->
    (List.length pre <= rounds)%nat ->
    exists b' w',
      List.length b' = 64%nat
      /\ os w' = os (world sc)
      /\ inbox w' = tail
      /\ nsend w' = (nsend (world sc) + List.length pre)%nat
      /\ open_sockets w' = open_sockets (world sc)
      /\ live_addrinfo w' = live_addrinfo (world sc)
      /\ trace w' = trace (world sc)
                    ++ flat_map (acknowledged (clientFd (socketInfos sc))) pre
      /\ server_loop rounds buffer sc
         = server_loop (rounds - List.length pre) b' (in_scope sc w').
Proof.
  induction pre as [|m pre IH]; intros buffer sc tail rounds B H F HS R.
  - exists buffer, (world sc). simpl. rewrite Nat.add_0_r, app_nil_r, Nat.sub_0_r,
      in_scope_self. auto 10.
  - destruct rounds as [|k]; [simpl in R; lia|].
    inversion F as [|? ? Fm Fpre]; subst.
    destruct (round_ordinary buffer sc B (S k) m (map RecvBytes pre ++ tail) H Fm)
      as (b2 & B2 & E).
    pose proof (HS 0%nat ltac:(simpl; lia)) as S0. rewrite Nat.add_0_r in S0.
    rewrite S0 in E. cbn [Z.eqb Pos.eqb] in E.
    set (sc1 := in_scope sc _) in E.
    destruct (IH b2 sc1 tail k B2) as (b' & w' & P1 & P2 & P3 & P4 & P5 & P6 & P7 & P8);
      try assumption; try reflexivity.
    + intros i Hi. specialize (HS (S i) ltac:(simpl; lia)).
      simpl. now rewrite Nat.add_succ_r in HS.
    + simpl in R. lia.
    + exists b', w'. repeat split; try assumption.
      * rewrite P4. simpl. lia.
      * rewrite P7. simpl. rewrite <- !app_assoc. reflexivity.
      * rewrite E, P8. reflexivity.
Qed.

End Loop.

Section LoopFrame.

Local Ltac frame_done :=
  repeat split; try reflexivity; try discriminate;
  try (intros ? [=]; congruence);
  repeat constructor.

(** Whatever the peer delivers, the loop ends by return or throw, makes
    calls of [recv] and [send] on the connection only, and opens, closes
    and frees nothing. *)
Lemma server_loop_frame (rounds : nat) :
  forall (buffer : Buffer) (sc : Scope),
    List.length buffer = 64%nat ->
    (List.length (inbox (world sc)) <= rounds)%nat ->
    exists (r : Result Z) (w' : World) (evs : list Event),
      server_loop rounds buffer sc = (r, in_scope sc w')
      /\ r <> Undefined
      /\ (forall e, r = Throws e -> e = {| what := "send error" |})
      /\ os w' = os (world sc)
      /\ open_sockets w' = open_sockets (world sc)
      /\ live_addrinfo w' = live_addrinfo (world sc)
      /\ trace w' = trace (world sc) ++ evs
      /\ Forall (on_connection (clientFd (socketInfos sc))) evs.
Proof.
  induction rounds as [|k IH]; intros buffer sc B R.
  - destruct (inbox (world sc)) as [|a rest] eqn:H; [|simpl in R; lia].
    rewrite (round_shutdown buffer sc B 0 H).
    do 3 eexists. frame_done.
  - destruct (inbox (world sc)) as [|[m|] rest] eqn:H.
    + rewrite (round_shutdown buffer sc B _ H). do 3 eexists. frame_done.
    + rewrite (server_loop_truncates buffer sc _ m rest B H).
      set (sc0 := in_scope sc _). set (got := firstn 63 m).
      assert (List.length got <= 63)%nat as L
        by (unfold got; rewrite length_firstn; lia).
      assert (inbox (world sc0) = RecvBytes got :: rest) as H0 by reflexivity.
      destruct got as [|b got'] eqn:G.
      { rewrite (round_empty buffer sc0 _ rest B H0). do 3 eexists. frame_done. }
      rewrite <- G in *.
      destruct (bytes_eqb (c_str got) (chars END_MESSAGE)) eqn:E.
      { apply bytes_eqb_eq in E.
        rewrite (round_sentinel buffer sc0 B _ got rest H0 (conj L E)).
        do 3 eexists. frame_done. }
      apply bytes_eqb_neq in E.
      assert (ordinary got) as O.
      { split; [|exact E]. split; [rewrite G; simpl; lia | exact L]. }
      destruct (round_ordinary buffer sc0 B (S k) got rest H0 O)
        as (b2 & B2 & Eq).
      rewrite Eq. clear Eq.
      destruct (Z.eqb_spec (send_result (os (world sc0)) (nsend (world sc0)) 2) 2)
        as [Es|Es].
      * rewrite Es. set (sc1 := in_scope sc0 _).
        destruct (IH b2 sc1 B2) as (r & w' & evs & P1 & P2 & PT & P3 & P4 & P5 & P6 & P7).
        { simpl. simpl in R. lia. }
        exists r, w', (acknowledged (clientFd (socketInfos sc)) got ++ evs).
        rewrite P1, P3, P4, P5, P6. repeat split; try assumption.
        -- simpl. rewrite <- !app_assoc. reflexivity.
        -- apply Forall_app. split; [|exact P7]. repeat constructor.
      * do 3 eexists. repeat split; try reflexivity; try discriminate.
        -- intros ? [=]; congruence.
        -- simpl. rewrite <- app_assoc. reflexivity.
        -- repeat constructor.
    + rewrite (round_failed buffer sc B _ rest H). do 3 eexists. frame_done.
Qed.

End LoopFrame.

(* ================================================================== *)
(** ** The destructor after each stage *)

Section DestructorStages.

Variable p : addrinfo * list addrinfo.

(** Only the address list is held. *)
Lemma dtor_resolved (w : World) :
  RAIIRawSocketInfos_dtor {| res := Some p; socketFd := -1; clientFd := -1 |} w
  = log EFreeaddrinfo (set_live (Nat.pred (live_addrinfo w)) w).
Proof. reflexivity. Qed.

(** The address list and one descriptor are held. *)
Lemma dtor_one (s : SOCKET) (l : list SOCKET) (w : World) :
  s <> -1 -> open_sockets w = s :: l -> ~ In s l ->
  RAIIRawSocketInfos_dtor {| res := Some p; socketFd := s; clientFd := -1 |} w
  = let w1 := log (EClosesocket s 0) (set_open l w) in
    log EFreeaddrinfo (set_live (Nat.pred (live_addrinfo w1)) w1).
Proof.
  intros V H N. unfold RAIIRawSocketInfos_dtor. cbn [res socketFd clientFd].
  apply Z.eqb_neq in V. rewrite V. change (-1 =? -1) with true. cbn [negb].
  rewrite (closesocket_head s l w H N). reflexivity.
Qed.

(** The address list, the listening and the accepted descriptor are
    held. *)
Lemma dtor_two (s c : SOCKET) (l : list SOCKET) (w : World) :
  s <> -1 -> c <> -1 -> open_sockets w = c :: s :: l ->
  ~ In c (s :: l) -> ~ In s l ->
  RAIIRawSocketInfos_dtor {| res := Some p; socketFd := s; clientFd := c |} w
  = let w1 := log (EClosesocket c 0) (set_open (s :: l) w) in
    let w2 := log (EClosesocket s 0) (set_open l w1) in
    log EFreeaddrinfo (set_live (Nat.pred (live_addrinfo w2)) w2).
Proof.
  intros Vs Vc H Nc Ns. unfold RAIIRawSocketInfos_dtor.
  cbn [res socketFd clientFd].
  apply Z.eqb_neq in Vs, Vc. rewrite Vs, Vc. cbn [negb].
  rewrite (closesocket_head c (s :: l) w H Nc). cbn [snd].
  rewrite (closesocket_head s l) by (try reflexivity; assumption).
  reflexivity.
Qed.

End DestructorStages.

(* ================================================================== *)
(** ** The runs of the two functions, stage by stage *)

Section ServerStages.

Variables (stack : list byte) (w : World).

Lemma setup_server_accepted :
  server_accepts w ->
  setup_server stack w
  = after_loop (server_loop (List.length (inbox w)) (uninitialised 64 stack)
                            (accepted_scope w)).
Proof.
  intros (H1 & H2 & H3 & H4 & H5).
  apply Z.eqb_neq in H3, H4.
  unfold accepted_scope, server_prologue, e_lookup, e_socket, e_bind, e_listen,
    e_accept, accepted_socket, listening_socket.
  open_world w. subst.
  run. rewrite fresh_socket_valid. run. rewrite H3. run. rewrite H4. run.
  rewrite fresh_socket_valid. run.
  rewrite <- !app_assoc. cbn [app].
  destruct (server_loop _ _ _) as [[n|e|] sc]; cbn [after_loop]; try reflexivity.
  destruct (n =? -1); reflexivity.
Qed.

End ServerStages.

Section ServerExit.

Variables (stack : list byte) (w : World).

(** The destructor of a server that holds both descriptors. *)
Lemma dtor_accepted (w' : World) :
  open_sockets w' = accepted_socket w :: listening_socket w :: open_sockets w ->
  let w'' := RAIIRawSocketInfos_dtor (socketInfos (accepted_scope w)) w' in
  os w'' = os w' /\ inbox w'' = inbox w' /\ nsend w'' = nsend w'
  /\ open_sockets w'' = open_sockets w
  /\ live_addrinfo w'' = Nat.pred (live_addrinfo w')
  /\ trace w'' = trace w' ++ server_epilogue w.
Proof.
  intros H. cbn [accepted_scope socketInfos].
  pose proof (fresh_socket_nonneg (open_sockets w)) as Vs.
  pose proof (fresh_socket_nonneg (listening_socket w :: open_sockets w)) as Vc.
  rewrite (dtor_two _ (listening_socket w) (accepted_socket w) (open_sockets w) w').
  - cbv zeta. unfold server_epilogue, log, set_open, set_live.
    cbn [os inbox nsend open_sockets live_addrinfo trace].
    rewrite <- !app_assoc. repeat split; reflexivity.
  - unfold listening_socket. lia.
  - unfold accepted_socket. lia.
  - exact H.
  - apply fresh_socket_not_open.
  - apply fresh_socket_not_open.
Qed.

(** The run of a server that reached the loop, from the loop's outcome. *)
Lemma setup_server_exit (r : Result Z) (w' : World) :
  server_accepts w ->
  server_loop (List.length (inbox w)) (uninitialised 64 stack) (accepted_scope w)
  = (r, in_scope (accepted_scope w) w') ->
  r <> Undefined ->
  open_sockets w' = open_sockets (world (accepted_scope w)) ->
  let out := setup_server stack w in
  fst out = match r with
            | Returns n => if n =? -1 then Throws {| what := "recv error" |}
                           else Returns tt
            | Throws e => Throws e
            | Undefined => Undefined
            end
  /\ os (snd out) = os w' /\ inbox (snd out) = inbox w'
  /\ open_sockets (snd out) = open_sockets w
  /\ live_addrinfo (snd out) = Nat.pred (live_addrinfo w')
  /\ trace (snd out) = trace w' ++ server_epilogue w.
Proof.
  intros A E D O. cbv zeta. rewrite (setup_server_accepted stack w A), E.
  destruct (dtor_accepted w' O) as (P1 & P2 & P3 & P4 & P5 & P6).
  destruct r as [n|e|]; [| |congruence]; cbn [after_loop fst snd in_scope world socketInfos];
    repeat split; assumption.
Qed.

End ServerExit.

(* ================================================================== *)
(** ** The message exchange of the server *)

Section ServerExchange.

Variables (stack : list byte) (w : World).

Lemma of_nat_not_error (n : nat) : (Z.of_nat n =? -1) = false.
Proof. apply Z.eqb_neq. lia. Qed.

(** The loop after the acknowledged deliveries [pre], as the loop on what
    is left of the inbox. *)
Lemma server_rounds (pre : list (list byte)) (tail : list RecvAnswer) :
  inbox w = map RecvBytes pre ++ tail ->
  Forall ordinary pre ->
  (forall i, (i < List.length pre)%nat ->
             send_result (os w) (nsend w + i) 2 = 2) ->
  exists b' w',
    List.length b' = 64%nat
    /\ os w' = os w /\ inbox w' = tail
    /\ nsend w' = (nsend w + List.length pre)%nat
    /\ open_sockets w' = open_sockets (world (accepted_scope w))
    /\ trace w' = trace w ++ server_prologue w
                  ++ flat_map (acknowledged (accepted_socket w)) pre
    /\ server_loop (List.length (inbox w)) (uninitialised 64 stack)
                   (accepted_scope w)
       = server_loop (List.length tail) b' (in_scope (accepted_scope w) w').
Proof.
  intros H F HS.
  destruct (ordinary_rounds pre (uninitialised 64 stack) (accepted_scope w) tail
              (List.length (inbox w)))
    as (b' & w' & P1 & P2 & P3 & P4 & P5 & P6 & P7 & P8);
    try assumption.
  - apply uninitialised_length.
  - rewrite H, length_app, length_map. lia.
  - exists b', w'. repeat split; try assumption.
    + rewrite P7. cbn [accepted_scope world socketInfos clientFd trace].
      now rewrite <- app_assoc.
    + rewrite P8. f_equal. rewrite H, length_app, length_map. lia.
Qed.

End ServerExchange.

(** C1 (as amended).  When every call up to [accept] succeeds and every
    acknowledgement is written in full, the server receives repeatedly: each
    delivery that does not read as END_MESSAGE (its bytes before the first
    zero byte differ from the sentinel) is answered by exactly one send of
    the two bytes "OK" and followed by another receive; the first delivery
    that reads as END_MESSAGE ends the loop with no reply, the function
    returns normally, and nothing more is received.  With no delivery before
    the sentinel no "OK" is sent at all. *)
Theorem C1_loop_until_sentinel (stack : list byte) (w : World)
    (pre : list (list byte)) (last : list byte) (rest : list RecvAnswer) :
  server_accepts w ->
  (forall i, (i < List.length pre)%nat ->
             send_result (os w) (nsend w + i) 2 = 2) ->
  inbox w = map RecvBytes pre ++ RecvBytes last :: rest ->
  Forall ordinary pre ->
  reads_as_sentinel last ->
  let out := setup_server stack w in
  fst out = Returns tt
  /\ trace (snd out)
     = trace w ++ server_prologue w
       ++ flat_map (acknowledged (accepted_socket w)) pre
       ++ [ERecv (accepted_socket w) 63 (Z.of_nat (List.length last))]
       ++ server_epilogue w
  /\ inbox (snd out) = rest.
Proof.
  intros A HS H F L.
  destruct (server_rounds stack w pre _ H F HS)
    as (b' & w' & P1 & P2 & P3 & P4 & P5 & P6 & P7).
  rewrite (round_sentinel b' (in_scope (accepted_scope w) w') P1 _ last rest P3 L)
    in P7.
  destruct (setup_server_exit stack w _ _ A P7) as (Q1 & Q2 & Q3 & Q4 & Q5 & Q6).
  - discriminate.
  - exact P5.
  - cbv zeta. rewrite Q1, Q3, Q6, of_nat_not_error.
    repeat split; try reflexivity.
    unfold heard; cbv zeta;
      cbn [received log set_inbox set_cout trace in_scope world socketInfos
           accepted_scope clientFd].
    rewrite P6, <- !app_assoc. reflexivity.
Qed.

Lemma C1_loop_until_sentinel_witness :
  let w := boot kind_os [RecvBytes (chars "hello"); RecvBytes (chars END_MESSAGE)] in
  let out := setup_server [] w in
  fst out = Returns tt
  /\ trace (snd out)
     = trace w ++ server_prologue w
       ++ flat_map (acknowledged (accepted_socket w)) [chars "hello"]
       ++ [ERecv (accepted_socket w) 63 11]
       ++ server_epilogue w
  /\ inbox (snd out) = [].
Proof.
  apply (C1_loop_until_sentinel []
           (boot kind_os [RecvBytes (chars "hello"); RecvBytes (chars END_MESSAGE)])
           [chars "hello"] (chars END_MESSAGE) []).
  - repeat split; (reflexivity || discriminate).
  - reflexivity.
  - reflexivity.
  - repeat constructor; vm_compute; (lia || discriminate).
  - split; vm_compute; (lia || reflexivity).
Defined.

(** C1, as stated, fails: a delivery of 13 bytes, "END_MESSAGE", a zero byte
    and "x", is not the sentinel, yet the server sends no "OK" for it and
    leaves the loop, with a further delivery still unread. *)
Lemma C1_counterexample :
  let m := chars END_MESSAGE ++ [x00; x78] in
  let w := boot kind_os [RecvBytes m; RecvBytes (chars "hello")] in
  let out := setup_server [] w in
  m <> chars END_MESSAGE
  /\ fst out = Returns tt
  /\ trace (snd out)
     = server_prologue w ++ [ERecv (accepted_socket w) 63 13] ++ server_epilogue w
  /\ ~ In (ESend (accepted_socket w) (chars "OK") 2 2) (trace (snd out))
  /\ inbox (snd out) = [RecvBytes (chars "hello")].
Proof.
  cbv zeta. split; [discriminate|]. vm_compute.
  repeat split; try reflexivity. intuition discriminate.
Qed.

(** C3.  After any number of acknowledged deliveries, a receive that returns
    zero (the peer has shut down) ends the server's loop and the function
    returns normally, while a receive that fails (-1) makes the function
    throw "recv error"; in both cases nothing is sent after that receive. *)
Theorem C3_shutdown_or_receive_error (stack : list byte) (w : World)
    (pre : list (list byte)) (tail : list RecvAnswer) :
  server_accepts w ->
  (forall i, (i < List.length pre)%nat ->
             send_result (os w) (nsend w + i) 2 = 2) ->
  inbox w = map RecvBytes pre ++ tail ->
  Forall ordinary pre ->
  let out := setup_server stack w in
  let exchange := trace w ++ server_prologue w
                  ++ flat_map (acknowledged (accepted_socket w)) pre in
  (tail = [] \/ (exists rest, tail = RecvBytes [] :: rest) ->
   fst out = Returns tt
   /\ trace (snd out)
      = exchange ++ [ERecv (accepted_socket w) 63 0] ++ server_epilogue w)
  /\ ((exists rest, tail = RecvError :: rest) ->
      fst out = Throws {| what := "recv error" |}
      /\ trace (snd out)
         = exchange ++ [ERecv (accepted_socket w) 63 (-1)] ++ server_epilogue w).
Proof.
  intros A HS H F.
  destruct (server_rounds stack w pre _ H F HS)
    as (b' & w' & P1 & P2 & P3 & P4 & P5 & P6 & P7).
  cbv zeta. split.
  - intros [T|[rest T]]; rewrite T in P3, P7.
    + rewrite (round_shutdown b' (in_scope (accepted_scope w) w') P1 _ P3) in P7.
      destruct (setup_server_exit stack w _ _ A P7) as (Q1 & _ & _ & _ & _ & Q6);
        [discriminate | exact P5 |].
      rewrite Q1, Q6. split; [reflexivity|].
      cbn [log trace in_scope world socketInfos accepted_scope clientFd].
      rewrite P6, <- !app_assoc. reflexivity.
    + rewrite (round_empty b' (in_scope (accepted_scope w) w') _ rest P1 P3) in P7.
      destruct (setup_server_exit stack w _ _ A P7) as (Q1 & _ & _ & _ & _ & Q6);
        [discriminate | exact P5 |].
      rewrite Q1, Q6. split; [reflexivity|].
      unfold heard; cbv zeta;
      cbn [received log set_inbox set_cout trace in_scope world socketInfos
           accepted_scope clientFd].
      rewrite P6, <- !app_assoc. reflexivity.
  - intros [rest T]. rewrite T in P3, P7.
    rewrite (round_failed b' (in_scope (accepted_scope w) w') P1 _ rest P3) in P7.
    destruct (setup_server_exit stack w _ _ A P7) as (Q1 & _ & _ & _ & _ & Q6);
      [discriminate | exact P5 |].
    rewrite Q1, Q6. split; [reflexivity|].
    unfold heard; cbv zeta;
      cbn [received log set_inbox set_cout trace in_scope world socketInfos
           accepted_scope clientFd].
    rewrite P6, <- !app_assoc. reflexivity.
Qed.

Lemma C3_shutdown_or_receive_error_witness :
  (let w := boot kind_os [RecvBytes (chars "hello")] in
   fst (setup_server [] w) = Returns tt
   /\ trace (snd (setup_server [] w))
      = (trace w ++ server_prologue w
         ++ flat_map (acknowledged (accepted_socket w)) [chars "hello"])
        ++ [ERecv (accepted_socket w) 63 0] ++ server_epilogue w)
  /\ (let w := boot kind_os [RecvBytes (chars "hello"); RecvError] in
      fst (setup_server [] w) = Throws {| what := "recv error" |}
      /\ trace (snd (setup_server [] w))
         = (trace w ++ server_prologue w
            ++ flat_map (acknowledged (accepted_socket w)) [chars "hello"])
           ++ [ERecv (accepted_socket w) 63 (-1)] ++ server_epilogue w).
Proof.
  split.
  - apply (C3_shutdown_or_receive_error []
             (boot kind_os [RecvBytes (chars "hello")]) [chars "hello"] []).
    + repeat split; (reflexivity || discriminate).
    + reflexivity.
    + reflexivity.
    + repeat constructor; vm_compute; (lia || discriminate).
    + left; reflexivity.
  - apply (C3_shutdown_or_receive_error []
             (boot kind_os [RecvBytes (chars "hello"); RecvError])
             [chars "hello"] [RecvError]).
    + repeat split; (reflexivity || discriminate).
    + reflexivity.
    + reflexivity.
    + repeat constructor; vm_compute; (lia || discriminate).
    + exists []. reflexivity.
Defined.

(* ================================================================== *)
(** ** Every run follows one of the ways *)

Section Ways.

Variables (stack : list byte) (w : World).

Local Ltac names :=
  unfold exits, error, server_prologue, server_epilogue, client_prologue,
    client_epilogue, e_lookup, e_socket, e_bind, e_listen, e_accept,
    e_connect, e_hello, e_end, e_recv, listening_socket, accepted_socket,
    connected_socket.

Local Ltac close_one :=
  match goal with
  | |- context [RAIIRawSocketInfos_dtor
                  {| res := Some ?p; socketFd := fresh_socket ?l; clientFd := -1 |} ?w'] =>
      rewrite (dtor_one p (fresh_socket l) l w');
      [ cbv zeta; run
      | pose proof (fresh_socket_nonneg l); lia
      | reflexivity
      | apply fresh_socket_not_open ]
  end.

Local Ltac fields :=
  cbn [fst snd os inbox nsend open_sockets live_addrinfo trace Nat.pred];
  rewrite <- ?app_assoc; cbn [app];
  repeat split; try reflexivity.

Lemma setup_server_ways :
  exists r evs, exits (setup_server stack w) w r evs /\ ServerRun w r evs.
Proof.
  destruct (Z.eq_dec (gai_status (os w)) 0) as [G|G].
  2: { do 2 eexists. split; [|apply SR_getaddrinfo; exact G].
       apply Z.eqb_neq in G. names. open_world w. run.
       repeat (rewrite G; run).
       rewrite dtor_nothing. fields. }
  destruct (socket_ok (os w)) eqn:S1.
  2: { do 2 eexists. split; [|apply SR_socket; assumption].
       names. open_world w. subst. run. rewrite dtor_resolved. run. fields. }
  destruct (Z.eq_dec (bind_result (os w)) (-1)) as [B|B].
  { do 2 eexists. split; [|apply SR_bind; assumption].
    names. open_world w. subst. run. rewrite fresh_socket_valid. run.
    close_one. fields. }
  destruct (Z.eq_dec (listen_result (os w)) (-1)) as [L|L].
  { do 2 eexists. split; [|apply SR_listen; assumption].
    apply Z.eqb_neq in B.
    names. open_world w. subst. run. rewrite fresh_socket_valid. run.
    repeat (rewrite B; run). close_one. fields. }
  destruct (accept_ok (os w)) eqn:A.
  2: { do 2 eexists. split; [|apply SR_accept; assumption].
       apply Z.eqb_neq in B, L.
       names. open_world w. subst. run. rewrite fresh_socket_valid. run.
       repeat (rewrite B; run). repeat (rewrite L; run). close_one. fields. }
  assert (server_accepts w) as SA by (repeat split; assumption).
  destruct (server_loop_frame (List.length (inbox w)) (uninitialised 64 stack)
              (accepted_scope w) (uninitialised_length _ _) (Nat.le_refl _))
    as (r & w' & io & P1 & P2 & PT & P3 & P4 & P5 & P6 & P7).
  destruct (setup_server_exit stack w r w' SA P1 P2 P4)
    as (Q1 & Q2 & Q3 & Q4 & Q5 & Q6).
  exists (fst (setup_server stack w)), (server_prologue w ++ io ++ server_epilogue w).
  split.
  - unfold exits. repeat split; try assumption.
    + now rewrite Q2, P3.
    + now rewrite Q5, P5.
    + rewrite Q6, P6. cbn [accepted_scope world trace]. now rewrite <- !app_assoc.
  - apply SR_exchange; [assumption | exact P7 |].
    rewrite Q1. destruct r as [n|e|]; [| |congruence].
    + destruct (n =? -1); auto.
    + rewrite (PT e eq_refl). auto.
Qed.

(** The client's [recv] into its fresh array, and the store of the
    terminator. *)
Lemma client_recv (c : SOCKET) (w0 : World) :
  let buffer := uninitialised 64 stack in
  exists b1,
    recv c buffer (buffer_size buffer - 1) w0
    = ((first_read w0, b1),
       log (ERecv c 63 (first_read w0)) (set_inbox (tl (inbox w0)) w0))
    /\ (0 <= first_read w0 ->
        exists b2, store b1 (first_read w0) NUL = Some b2
                   /\ terminated b2 = true
                   /\ c_str b2 = c_str (first_bytes w0)).
Proof.
  cbv zeta. unfold recv, first_read, first_bytes, buffer_size.
  rewrite uninitialised_length. change (Z.to_nat (Z.of_nat 64 - 1)) with 63%nat.
  change (Z.of_nat 64 - 1) with 63.
  destruct w0 as [o [|[bs|] rest] n op lv tr co]; cbn [inbox tl set_inbox log].
  - eexists. split; [reflexivity|]. intros _.
    destruct (terminated_compare (uninitialised 64 stack)
                (uninitialised_length _ _) [] END_MESSAGE)
      as (b2 & Hs & _ & _ & _ & Ht & Hp); [simpl; lia|].
    exists b2. auto.
  - eexists. split; [reflexivity|]. intros _.
    destruct (terminated_compare (uninitialised 64 stack)
                (uninitialised_length _ _) (firstn 63 bs) END_MESSAGE)
      as (b2 & Hs & _ & _ & _ & Ht & Hp); [rewrite length_firstn; lia|].
    exists b2. auto.
  - eexists. split; [reflexivity|]. cbn. lia.
Qed.

Lemma setup_client_ways :
  exists r evs, exits (setup_client stack w) w r evs /\ ClientRun w r evs.
Proof.
  destruct (Z.eq_dec (gai_status (os w)) 0) as [G|G].
  2: { do 2 eexists. split; [|apply CR_getaddrinfo; exact G].
       apply Z.eqb_neq in G. names. open_world w. run.
       repeat (rewrite G; run).
       rewrite dtor_nothing. fields. }
  destruct (socket_ok (os w)) eqn:S1.
  2: { do 2 eexists. split; [|apply CR_socket; assumption].
       names. open_world w. subst. run. rewrite dtor_resolved. run. fields. }
  destruct (Z.eq_dec (connect_result (os w)) (-1)) as [C|C].
  { do 2 eexists. split; [|apply CR_connect; assumption].
    names. open_world w. subst. run. rewrite fresh_socket_valid. run.
    close_one. fields. }
  assert (client_connects w) as CC by (repeat split; assumption).
  apply Z.eqb_neq in C.
  destruct (Z.eq_dec (send_result (os w) (nsend w) 5) 5) as [H5|H5].
  2: { do 2 eexists. split; [|apply CR_hello; assumption].
       apply Z.eqb_neq in H5.
       names. open_world w. subst. run. rewrite fresh_socket_valid. run.
       repeat (rewrite C; run). unfold send. run.
       change (strlen "hello") with 5. repeat (rewrite H5; run).
       close_one. fields. }
  destruct (Z_lt_le_dec (first_read w) 0) as [R|R].
  { do 2 eexists. split; [|apply CR_recv; assumption].
    apply Z.ltb_lt in R.
    names. open_world w. subst. run. rewrite fresh_socket_valid. run.
    repeat (rewrite C; run). unfold send. run.
    change (strlen "hello") with 5. repeat (rewrite H5; run).
    match goal with
    | |- context [recv ?c _ _ ?w0] =>
        destruct (client_recv c w0) as (b1 & E & _); rewrite E; clear E
    end.
    unfold first_read in *. cbn [inbox] in *. run.
    repeat (rewrite R; run). close_one. fields. }
  assert ((first_read w <? 0) = false) as R' by (apply Z.ltb_ge; exact R).
  destruct (Z.eq_dec (send_result (os w) (S (nsend w)) 11) 11) as [H11|H11].
  - do 2 eexists. split; [|apply CR_complete; assumption].
    names. open_world w. subst. run. rewrite fresh_socket_valid. run.
    repeat (rewrite C; run). unfold send. run.
    change (strlen "hello") with 5. repeat (rewrite H5; run).
    match goal with
    | |- context [recv ?c _ _ ?w0] =>
        destruct (client_recv c w0) as (b1 & E & St); rewrite E; clear E
    end.
    unfold first_read in *. cbn [inbox] in *. run.
    repeat (rewrite R'; run).
    destruct (St R) as (b2 & E2 & T2 & _). rewrite E2. run.
    unfold cout_line. rewrite T2. run.
    change (strlen END_MESSAGE) with 11. repeat (rewrite H11; run).
    close_one. fields.
  - do 2 eexists. split; [|apply CR_end; assumption].
    apply Z.eqb_neq in H11.
    names. open_world w. subst. run. rewrite fresh_socket_valid. run.
    repeat (rewrite C; run). unfold send. run.
    change (strlen "hello") with 5. repeat (rewrite H5; run).
    match goal with
    | |- context [recv ?c _ _ ?w0] =>
        destruct (client_recv c w0) as (b1 & E & St); rewrite E; clear E
    end.
    unfold first_read in *. cbn [inbox] in *. run.
    repeat (rewrite R'; run).
    destruct (St R) as (b2 & E2 & T2 & _). rewrite E2. run.
    unfold cout_line. rewrite T2. run.
    change (strlen END_MESSAGE) with 11. repeat (rewrite H11; run).
    close_one. fields.
Qed.


End Ways.

(* ================================================================== *)
(** ** The client *)

Lemma first_read_bytes (w : World) (ack : list byte) (rest : list RecvAnswer) :
  inbox w = RecvBytes ack :: rest ->
  first_read w = Z.of_nat (List.length (firstn 63 ack)).
Proof. intros H. unfold first_read. now rewrite H. Qed.

(** C2.  Once connected, and when both sends are written in full, the client
    makes exactly these calls on its socket: send of the 5 bytes "hello",
    one receive of at most 63 bytes, send of the 11 bytes "END_MESSAGE", and
    then only the destructor's close: it returns normally whatever bytes the
    acknowledgement holds, and receives nothing after the sentinel. *)
Theorem C2_client_sequence (stack : list byte) (w : World) (ack : list byte)
    (rest : list RecvAnswer) :
  client_connects w ->
  send_result (os w) (nsend w) 5 = 5 ->
  send_result (os w) (S (nsend w)) 11 = 11 ->
  inbox w = RecvBytes ack :: rest ->
  let out := setup_client stack w in
  let s := connected_socket w in
  let n := Z.of_nat (List.length (firstn 63 ack)) in
  fst out = Returns tt
  /\ trace (snd out)
     = trace w ++ client_prologue w
       ++ [ESend s (chars "hello") 5 5; ERecv s 63 n;
           ESend s (chars END_MESSAGE) 11 11]
       ++ client_epilogue w
  /\ n <= 63.
Proof.
  intros CC H5 H11 H.
  destruct (setup_client_ways stack w) as (r & evs & (E1 & _ & _ & _ & E5) & P).
  pose proof (first_read_bytes w ack rest H) as FR.
  destruct CC as (G & S1 & C).
  cbv zeta. rewrite E1, E5.
  inversion P; subst; try congruence; try lia.
  unfold e_hello, e_recv, e_end. rewrite H5, H11, FR.
  repeat split. rewrite length_firstn. lia.
Qed.

Lemma C2_client_sequence_witness :
  let w := boot kind_os [RecvBytes (chars "anything but OK")] in
  let out := setup_client [] w in
  let s := connected_socket w in
  fst out = Returns tt
  /\ trace (snd out)
     = trace w ++ client_prologue w
       ++ [ESend s (chars "hello") 5 5; ERecv s 63 15;
           ESend s (chars END_MESSAGE) 11 11]
       ++ client_epilogue w
  /\ 15 <= 63.
Proof.
  apply (C2_client_sequence [] (boot kind_os [RecvBytes (chars "anything but OK")])
           (chars "anything but OK") []).
  - repeat split; (reflexivity || discriminate).
  - reflexivity.
  - reflexivity.
  - reflexivity.
Defined.



(* ================================================================== *)
(** ** Short writes *)

(** C6.  Every send is checked against the length asked for, and a send
    that returns anything else is fatal and not retried: the server throws
    "send error" right after the one send of "OK" that fell short, and the
    client right after the one send of "hello" or of "END_MESSAGE" that fell
    short; in each case the only calls that follow are the destructor's.
    The client throws "send error" in no other case. *)
Theorem C6_short_write (stack : list byte) (w : World) :
  (forall (pre : list (list byte)) (m : list byte) (rest : list RecvAnswer),
     server_accepts w ->
     inbox w = map RecvBytes pre ++ RecvBytes m :: rest ->
     Forall ordinary pre -> ordinary m ->
     (forall i, (i < List.length pre)%nat ->
                send_result (os w) (nsend w + i) 2 = 2) ->
     send_result (os w) (nsend w + List.length pre) 2 <> 2 ->
     let out := setup_server stack w in
     let c := accepted_socket w in
     fst out = error "send error"
     /\ trace (snd out)
        = trace w ++ server_prologue w
          ++ flat_map (acknowledged c) pre
          ++ [ERecv c 63 (Z.of_nat (List.length m));
              ESend c (chars "OK") 2
                    (send_result (os w) (nsend w + List.length pre) 2)]
          ++ server_epilogue w)
  /\ (client_connects w ->
      send_result (os w) (nsend w) 5 <> 5 ->
      let out := setup_client stack w in
      fst out = error "send error"
      /\ trace (snd out)
         = trace w ++ client_prologue w ++ [e_hello w] ++ client_epilogue w)
  /\ (client_connects w ->
      send_result (os w) (nsend w) 5 = 5 ->
      0 <= first_read w ->
      send_result (os w) (S (nsend w)) 11 <> 11 ->
      let out := setup_client stack w in
      fst out = error "send error"
      /\ trace (snd out)
         = trace w ++ client_prologue w
           ++ [e_hello w; e_recv w; e_end w] ++ client_epilogue w)
  /\ (fst (setup_client stack w) = error "send error" ->
      send_result (os w) (nsend w) 5 <> 5
      \/ send_result (os w) (S (nsend w)) 11 <> 11).
Proof.
  split; [|split; [|split]].
  - intros pre m rest A H F O HS N.
    destruct (server_rounds stack w pre _ H F HS)
      as (b' & w' & P1 & P2 & P3 & P4 & P5 & P6 & P7).
    destruct (round_ordinary b' (in_scope (accepted_scope w) w') P1
                (List.length (RecvBytes m :: rest)) m rest P3 O)
      as (b2 & _ & E).
    cbv zeta in E. cbn [in_scope world socketInfos] in E.
    rewrite P2, P4 in E. apply Z.eqb_neq in N. rewrite N in E.
    rewrite E in P7.
    destruct (setup_server_exit stack w _ _ A P7) as (Q1 & _ & _ & _ & _ & Q6);
      [discriminate | exact P5 |].
    cbv zeta. rewrite Q1, Q6. split; [reflexivity|].
    unfold heard; cbv zeta.
    cbn [replied received log set_inbox set_nsend set_cout trace accepted_scope
         clientFd].
    rewrite P6, <- !app_assoc. reflexivity.
  - intros (G & S1 & C) H5.
    destruct (setup_client_ways stack w) as (r & evs & (E1 & _ & _ & _ & E5) & P).
    cbv zeta. rewrite E1, E5.
    inversion P; subst; try congruence; try lia. split; reflexivity.
  - intros (G & S1 & C) H5 R H11.
    destruct (setup_client_ways stack w) as (r & evs & (E1 & _ & _ & _ & E5) & P).
    cbv zeta. rewrite E1, E5.
    inversion P; subst; try congruence; try lia. split; reflexivity.
  - intros E.
    destruct (setup_client_ways stack w) as (r & evs & (E1 & _) & P).
    rewrite E in E1. inversion P; subst; try (unfold error in *; congruence); auto.
Qed.

Lemma C6_short_write_witness :
  (let w := boot (short_at 1) [RecvBytes (chars "a"); RecvBytes (chars "b")] in
   fst (setup_server [] w) = error "send error"
   /\ trace (snd (setup_server [] w))
      = trace w ++ server_prologue w
        ++ flat_map (acknowledged (accepted_socket w)) [chars "a"]
        ++ [ERecv (accepted_socket w) 63 1;
            ESend (accepted_socket w) (chars "OK") 2 1]
        ++ server_epilogue w)
  /\ (let w := boot (short_at 0) [] in
      fst (setup_client [] w) = error "send error"
      /\ trace (snd (setup_client [] w))
         = trace w ++ client_prologue w ++ [e_hello w] ++ client_epilogue w)
  /\ (let w := boot (short_at 1) [RecvBytes (chars "OK")] in
      fst (setup_client [] w) = error "send error"
      /\ trace (snd (setup_client [] w))
         = trace w ++ client_prologue w
           ++ [e_hello w; e_recv w; e_end w] ++ client_epilogue w).
Proof.
  split; [|split].
  - pose proof (C6_short_write []
                  (boot (short_at 1) [RecvBytes (chars "a"); RecvBytes (chars "b")]))
      as (T & _).
    apply (T [chars "a"] (chars "b") []).
    + repeat split; (reflexivity || discriminate).
    + reflexivity.
    + repeat constructor; vm_compute; (lia || discriminate).
    + repeat constructor; vm_compute; (lia || discriminate).
    + intros [|i] Hi; [reflexivity | simpl in Hi; lia].
    + vm_compute. discriminate.
  - pose proof (C6_short_write [] (boot (short_at 0) [])) as (_ & T & _).
    cbv zeta in T. apply T.
    + repeat split; (reflexivity || discriminate).
    + vm_compute. discriminate.
  - pose proof (C6_short_write [] (boot (short_at 1) [RecvBytes (chars "OK")]))
      as (_ & _ & T & _).
    cbv zeta in T. apply T.
    + repeat split; (reflexivity || discriminate).
    + reflexivity.
    + vm_compute. discriminate.
    + vm_compute. discriminate.
Defined.

(* ================================================================== *)
(** ** Errors *)




(* ================================================================== *)
(** ** Release of descriptors and address lists *)

Lemma server_run_defined (w : World) (r : Result unit) (evs : list Event) :
  ServerRun w r evs -> r <> Undefined.
Proof.
  intros P; inversion P; subst; unfold error; try discriminate.
  repeat match goal with D : _ \/ _ |- _ => destruct D end;
    subst; unfold error; discriminate.
Qed.

Lemma client_run_defined (w : World) (r : Result unit) (evs : list Event) :
  ClientRun w r evs -> r <> Undefined.
Proof. intros P; inversion P; subst; unfold error; discriminate. Qed.

(** Neither function ends in undefined behaviour. *)
Lemma setup_server_defined (stack : list byte) (w : World) :
  fst (setup_server stack w) <> Undefined.
Proof.
  destruct (setup_server_ways stack w) as (r & evs & (E1 & _) & P).
  rewrite E1. exact (server_run_defined w r evs P).
Qed.

Lemma setup_client_defined (stack : list byte) (w : World) :
  fst (setup_client stack w) <> Undefined.
Proof.
  destruct (setup_client_ways stack w) as (r & evs & (E1 & _) & P).
  rewrite E1. exact (client_run_defined w r evs P).
Qed.

(** C7.  Whatever the system answers and whatever the peer delivers, when
    [setup_server] or [setup_client] is left, by return or by any of its
    throws, the descriptors open and the address lists allocated are those
    of before the call: everything the attempt acquired has been released.
    In particular, when [connect] fails, the client throws "connect error"
    after it has closed the socket it created and freed the address list. *)
Theorem C7_no_leak (stack : list byte) (w : World) :
  let server := setup_server stack w in
  let client := setup_client stack w in
  (fst server <> Undefined
   /\ open_sockets (snd server) = open_sockets w
   /\ live_addrinfo (snd server) = live_addrinfo w)
  /\ (fst client <> Undefined
      /\ open_sockets (snd client) = open_sockets w
      /\ live_addrinfo (snd client) = live_addrinfo w)
  /\ (gai_status (os w) = 0 -> socket_ok (os w) = true ->
      connect_result (os w) = -1 ->
      fst client = error "connect error"
      /\ trace (snd client)
         = trace w ++ [e_lookup w; e_socket w (connected_socket w); e_connect w;
                       EClosesocket (connected_socket w) 0; EFreeaddrinfo]
      /\ ~ In (connected_socket w) (open_sockets (snd client))).
Proof.
  cbv zeta.
  destruct (setup_server_ways stack w) as (r & evs & (E1 & _ & E3 & E4 & _) & _).
  destruct (setup_client_ways stack w) as (r' & evs' & (E1' & _ & E3' & E4' & E5') & P').
  split; [|split].
  - repeat split; try assumption. apply setup_server_defined.
  - repeat split; try assumption. apply setup_client_defined.
  - intros G S1 C. rewrite E1', E3', E5'. clear E1' E5'.
    inversion P'; subst;
      try congruence; try (unfold client_connects in *; intuition congruence).
    repeat split. apply fresh_socket_not_open.
Qed.

Lemma C7_no_leak_witness :
  let w := boot nobody_listens [] in
  fst (setup_client [] w) = error "connect error"
  /\ trace (snd (setup_client [] w))
     = trace w ++ [e_lookup w; e_socket w (connected_socket w); e_connect w;
                   EClosesocket (connected_socket w) 0; EFreeaddrinfo]
  /\ ~ In (connected_socket w) (open_sockets (snd (setup_client [] w))).
Proof.
  pose proof (C7_no_leak [] (boot nobody_listens [])) as T.
  cbv zeta in T. destruct T as (_ & _ & T).
  apply T; reflexivity.
Defined.

(** C8.  When the destructor runs with both handles held, it calls
    [closesocket] on the accepted client first and on the listening socket
    second, and [freeaddrinfo] only after both; so every run of the server
    that got past [accept] ends with the close of the accepted descriptor,
    then the close of the listening one, the reverse of their acquisition. *)
Theorem C8_innermost_first :
  (forall (this : RAIIRawSocketInfos) (w : World),
     socketFd this <> -1 -> clientFd this <> -1 ->
     exists r1 r2 freed,
       trace (RAIIRawSocketInfos_dtor this w)
       = trace w ++ [EClosesocket (clientFd this) r1;
                     EClosesocket (socketFd this) r2] ++ freed
       /\ (freed = [] \/ freed = [EFreeaddrinfo]))
  /\ (forall (stack : list byte) (w : World),
        server_accepts w ->
        exists io,
          trace (snd (setup_server stack w))
          = trace w
            ++ [e_lookup w; e_socket w (listening_socket w); e_bind w;
                e_listen w; e_accept w (accepted_socket w)]
            ++ io
            ++ [EClosesocket (accepted_socket w) 0;
                EClosesocket (listening_socket w) 0; EFreeaddrinfo]
          /\ Forall (on_connection (accepted_socket w)) io).
Proof.
  split.
  - intros [p s c] w Vs Vc. cbn [socketFd clientFd] in *.
    unfold RAIIRawSocketInfos_dtor. cbn [res socketFd clientFd].
    apply Z.eqb_neq in Vs, Vc. rewrite Vs, Vc. cbn [negb].
    unfold closesocket, freeaddrinfo.
    destruct (is_open c w); cbn [snd];
      match goal with |- context [is_open s ?w1] => destruct (is_open s w1) end;
      cbn [snd]; destruct p; cbn [snd log set_open set_live trace];
      rewrite <- ?app_assoc; cbn [app];
      do 3 eexists; (split; [reflexivity|]); auto.
  - intros stack w A.
    destruct (setup_server_ways stack w) as (r & evs & (_ & _ & _ & _ & E5) & P).
    rewrite E5. clear E5.
    inversion P; subst;
      try (unfold server_accepts in *; intuition congruence).
    exists io. split; [reflexivity | assumption].
Qed.

Lemma C8_innermost_first_witness :
  (exists r1 r2 freed,
     trace (RAIIRawSocketInfos_dtor
              {| res := None; socketFd := 4; clientFd := 5 |}
              (set_open [5; 4] (boot kind_os [])))
     = trace (set_open [5; 4] (boot kind_os []))
       ++ [EClosesocket 5 r1; EClosesocket 4 r2] ++ freed
     /\ (freed = [] \/ freed = [EFreeaddrinfo]))
  /\ (let w := boot kind_os [] in
      exists io,
        trace (snd (setup_server [] w))
        = trace w
          ++ [e_lookup w; e_socket w (listening_socket w); e_bind w;
              e_listen w; e_accept w (accepted_socket w)]
          ++ io
          ++ [EClosesocket (accepted_socket w) 0;
              EClosesocket (listening_socket w) 0; EFreeaddrinfo]
        /\ Forall (on_connection (accepted_socket w)) io).
Proof.
  destruct C8_innermost_first as (T1 & T2). split.
  - apply (T1 {| res := None; socketFd := 4; clientFd := 5 |}
              (set_open [5; 4] (boot kind_os []))); discriminate.
  - apply (T2 [] (boot kind_os [])).
    repeat split; (reflexivity || discriminate).
Defined.

Section ReleasedOnce.






End ReleasedOnce.



(* ================================================================== *)
(** ** The exchange as a function of the deliveries *)

Section Exchange.

Lemma world_eta (w : World) :
  {| os := os w; inbox := inbox w; nsend := nsend w;
     open_sockets := open_sockets w; live_addrinfo := live_addrinfo w;
     trace := trace w; cout := cout w |} = w.
Proof. now destruct w. Qed.

(** The loop computes [exchange], whatever the array held. *)
Lemma server_loop_exchange (rounds : nat) :
  forall (buffer : Buffer) (sc : Scope),
    List.length buffer = 64%nat ->
    (List.length (inbox (world sc)) <= rounds)%nat ->
    server_loop rounds buffer sc
    = let x := exchange (clientFd (socketInfos sc)) (send_result (os (world sc)))
                        (nsend (world sc)) (inbox (world sc)) in
      (fst x,
       in_scope sc
         (after_exchange (world sc) (fst (snd x)) (snd (snd x))
            (exchange_lines (send_result (os (world sc))) (nsend (world sc))
                            (inbox (world sc))))).
Proof.
  induction rounds as [|k IH]; intros buffer sc B R; cbv zeta.
  - destruct (inbox (world sc)) as [|a rest] eqn:H; [|simpl in R; lia].
    rewrite (round_shutdown buffer sc B 0 H).
    unfold log, after_exchange. cbn [exchange exchange_lines fst snd].
    now rewrite H, app_nil_r.
  - destruct (inbox (world sc)) as [|[m|] rest] eqn:H.
    + rewrite (round_shutdown buffer sc B _ H).
      unfold log, after_exchange. cbn [exchange exchange_lines fst snd].
      now rewrite H, app_nil_r.
    + rewrite (server_loop_truncates buffer sc _ m rest B H).
      set (sc0 := in_scope sc _). set (got := firstn 63 m).
      assert (List.length got <= 63)%nat as L
        by (unfold got; rewrite length_firstn; lia).
      assert (inbox (world sc0) = RecvBytes got :: rest) as H0 by reflexivity.
      cbn [exchange exchange_lines]. fold got.
      destruct (Z.ltb_spec 0 (Z.of_nat (List.length got))) as [P|P].
      * destruct (bytes_eqb (c_str got) (chars END_MESSAGE)) eqn:E.
        { apply bytes_eqb_eq in E.
          rewrite (round_sentinel buffer sc0 B _ got rest H0 (conj L E)).
          subst sc0. same_world. }
        apply bytes_eqb_neq in E.
        assert (ordinary got) as O by (split; [lia | exact E]).
        destruct (round_ordinary buffer sc0 B (S k) got rest H0 O)
          as (b2 & B2 & Eq).
        rewrite Eq. clear Eq.
        change (send_result (os (world sc0)) (nsend (world sc0)) 2)
          with (send_result (os (world sc)) (nsend (world sc)) 2).
        destruct (Z.eqb_spec (send_result (os (world sc)) (nsend (world sc)) 2) 2)
          as [Es|Es]; [|subst sc0; same_world].
        rewrite Es, (IH b2 _ B2) by (simpl; simpl in R; lia).
        subst sc0.
        unfold in_scope, replied, heard, received, log, set_inbox, set_nsend, set_cout.
        cbn [world socketInfos os inbox nsend open_sockets live_addrinfo trace
             cout].
        destruct (exchange (clientFd (socketInfos sc)) (send_result (os (world sc)))
                           (S (nsend (world sc))) rest)
          as [res [evs unread]].
        same_world.
      * assert (got = []) as G by (destruct got; [reflexivity | simpl in P; lia]).
        rewrite G in H0.
        rewrite (round_empty buffer sc0 _ rest B H0). subst sc0. same_world.
    + rewrite (round_failed buffer sc B _ rest H). same_world.
Qed.

End Exchange.

(* ================================================================== *)
(** ** The comparison with the sentinel *)

(** C4 (as amended).  In every round of the server's loop that receives
    bytes, the zero is stored at index [bytesRead] before the array is read
    as a string: the line written and the comparison with END_MESSAGE see
    the received bytes before their first zero byte and nothing else.  The
    round is the same for every earlier content of the array; the loop is
    left without a reply exactly when the received bytes before their first
    zero byte are the sentinel, and "OK" is sent otherwise.  When the
    received bytes hold no zero byte, the loop is left exactly when they are
    the bytes of END_MESSAGE. *)
Theorem C4_compare_received (rounds : nat) (buffer : Buffer) (sc : Scope)
    (m : list byte) (rest : list RecvAnswer) :
  List.length buffer = 64%nat ->
  inbox (world sc) = RecvBytes m :: rest ->
  (List.length (inbox (world sc)) <= rounds)%nat ->
  m <> [] ->
  let c := clientFd (socketInfos sc) in
  let got := firstn 63 m in
  let bytesRead := Z.of_nat (List.length got) in
  let out := server_loop rounds buffer sc in
  let stopped :=
    fst out = Returns bytesRead
    /\ trace (world (snd out)) = trace (world sc) ++ [ERecv c 63 bytesRead] in
  (forall stale, List.length stale = 64%nat -> server_loop rounds stale sc = out)
  /\ (exists later,
        cout (world (snd out))
        = cout (world sc) ++ (chars "server received: " ++ c_str got) :: later)
  /\ (c_str got = chars END_MESSAGE -> stopped)
  /\ (c_str got <> chars END_MESSAGE ->
      exists later,
        trace (world (snd out))
        = trace (world sc)
          ++ ERecv c 63 bytesRead
          :: ESend c (chars "OK") 2
                   (send_result (os (world sc)) (nsend (world sc)) 2)
          :: later)
  /\ (~ In NUL got -> (stopped <-> got = chars END_MESSAGE)).
Proof.
  intros B H R N c got bytesRead out stopped.
  assert (0 < bytesRead) as P.
  { subst bytesRead got. destruct m; [congruence | simpl; lia]. }
  pose proof (server_loop_exchange rounds buffer sc B R) as E.
  fold out in E. cbv zeta in E. rewrite H in E.
  cbn [exchange exchange_lines] in E. fold got c in E. fold bytesRead in E.
  apply Z.ltb_lt in P. rewrite P in E.
  assert (c_str got = chars END_MESSAGE -> stopped) as Stop.
  { intros Hs. apply bytes_eqb_eq in Hs. rewrite Hs in E. subst stopped.
    rewrite E. split; reflexivity. }
  assert (c_str got <> chars END_MESSAGE ->
          exists later,
            trace (world (snd out))
            = trace (world sc)
              ++ ERecv c 63 bytesRead
              :: ESend c (chars "OK") 2
                       (send_result (os (world sc)) (nsend (world sc)) 2)
              :: later) as Go.
  { intros Hs. apply bytes_eqb_neq in Hs. rewrite Hs in E.
    destruct (Z.eqb_spec (send_result (os (world sc)) (nsend (world sc)) 2) 2)
      as [Es|Es].
    - rewrite Es in *.
      destruct (exchange c (send_result (os (world sc))) (S (nsend (world sc))) rest)
        as [r [evs unread]].
      rewrite E. now exists evs.
    - rewrite E. now exists []. }
  split; [|split; [|split; [exact Stop|split; [exact Go|]]]].
  - intros stale Bs.
    rewrite (server_loop_exchange rounds stale sc Bs R). cbv zeta.
    rewrite H. cbn [exchange exchange_lines]. fold got c. fold bytesRead.
    rewrite P. symmetry. exact E.
  - rewrite E. cbn [snd world in_scope after_exchange cout]. eexists. reflexivity.
  - intros Z0. pose proof (c_str_no_zero got Z0) as Cz.
    split; [|intros G; apply Stop; now rewrite Cz].
    intros [_ T]. rewrite <- Cz.
    destruct (bytes_eqb (c_str got) (chars END_MESSAGE)) eqn:Hs;
      [now apply bytes_eqb_eq|].
    apply bytes_eqb_neq in Hs. destruct (Go Hs) as [later G].
    rewrite G in T. apply app_inv_head in T. discriminate T.
Qed.

Lemma C4_compare_received_witness :
  let buffer := uninitialised 64 (chars "stale bytes of an earlier frame") in
  let sc := {| world := boot kind_os [RecvBytes (chars END_MESSAGE)];
               socketInfos := {| res := None; socketFd := 3; clientFd := 4 |} |} in
  let out := server_loop 1 buffer sc in
  (forall stale, List.length stale = 64%nat -> server_loop 1 stale sc = out)
  /\ fst out = Returns 11
  /\ trace (world (snd out)) = [ERecv 4 63 11].
Proof.
  pose proof (C4_compare_received 1
                (uninitialised 64 (chars "stale bytes of an earlier frame"))
                {| world := boot kind_os [RecvBytes (chars END_MESSAGE)];
                   socketInfos := {| res := None; socketFd := 3; clientFd := 4 |} |}
                (chars END_MESSAGE) [] eq_refl eq_refl (Nat.le_refl 1)
                ltac:(discriminate)) as T.
  cbv zeta in T. destruct T as (T1 & _ & T3 & _).
  cbv zeta. split; [exact T1 | exact (T3 eq_refl)].
Defined.

(** C4, as stated, fails: the 13 received bytes "END_MESSAGE", zero, "x"
    are not the 11 bytes of the sentinel, yet the loop compares them equal
    to it and is left without a reply: the comparison is not one of exactly
    the received bytes. *)
Lemma C4_counterexample :
  let m := chars END_MESSAGE ++ [x00; x78] in
  let sc := {| world := boot kind_os [RecvBytes m];
               socketInfos := {| res := None; socketFd := 3; clientFd := 4 |} |} in
  let out := server_loop 1 (uninitialised 64 []) sc in
  List.length m = 13%nat
  /\ List.length (chars END_MESSAGE) = 11%nat
  /\ m <> chars END_MESSAGE
  /\ fst out = Returns 13
  /\ trace (world (snd out)) = [ERecv 4 63 13]
  /\ cout (world (snd out)) = [chars "server received: END_MESSAGE"].
Proof.
  cbv zeta. split; [reflexivity|]. split; [reflexivity|].
  split; [discriminate|]. vm_compute. repeat split; reflexivity.
Qed.

Section ExchangeFacts.

Variables (c : SOCKET) (sr : nat -> Z -> Z).

Lemma exchange_defined (incoming : list RecvAnswer) :
  forall k, fst (exchange c sr k incoming) <> Undefined.
Proof.
  induction incoming as [|[m|] rest IH]; intros k; cbn [exchange]; try discriminate.
  destruct (0 <? _); [|discriminate].
  destruct (bytes_eqb _ _); [discriminate|].
  destruct (sr k 2 =? 2); [|discriminate].
  specialize (IH (S k)). destruct (exchange c sr (S k) rest) as [res [evs unread]].
  exact IH.
Qed.

(** The value of [bytesRead] the loop is left with. *)
Lemma exchange_returns (incoming : list RecvAnswer) :
  forall k n, fst (exchange c sr k incoming) = Returns n ->
              -1 <= n <= 63 /\ (n = -1 -> In RecvError incoming).
Proof.
  induction incoming as [|[m|] rest IH]; intros k n; cbn [exchange fst].
  - intros [= <-]. split; [lia | intro; exfalso; lia].
  - assert (List.length (firstn 63 m) <= 63)%nat as L
      by (rewrite length_firstn; lia).
    remember (firstn 63 m) as got eqn:G. clear G.
    destruct (Z.ltb_spec 0 (Z.of_nat (List.length got))) as [P|P].
    + destruct (bytes_eqb _ _).
      * intros [= <-]. split; [lia | intro; exfalso; lia].
      * destruct (sr k 2 =? 2); [|discriminate].
        specialize (IH (S k) n).
        destruct (exchange c sr (S k) rest) as [res [evs unread]].
        intros E. destruct (IH E) as [I1 I2]. split; [exact I1|].
        intros N. right. exact (I2 N).
    + intros [= <-]. split; [lia | intro; exfalso; lia].
  - intros [= <-]. split; [lia|]. intros _. now left.
Qed.

Lemma exchange_throws (incoming : list RecvAnswer) :
  forall k e, fst (exchange c sr k incoming) = Throws e ->
              e = {| what := "send error" |}
              /\ exists i, (k <= i)%nat /\ sr i 2 <> 2.
Proof.
  induction incoming as [|[m|] rest IH]; intros k e; cbn [exchange fst];
    try discriminate.
  destruct (0 <? _); [|discriminate].
  destruct (bytes_eqb _ _); [discriminate|].
  destruct (Z.eqb_spec (sr k 2) 2) as [E|E].
  - specialize (IH (S k) e).
    destruct (exchange c sr (S k) rest) as [res [evs unread]].
    intros T. destruct (IH T) as (I1 & i & I2 & I3).
    split; [exact I1|]. exists i. split; [lia | exact I3].
  - intros [= <-]. split; [reflexivity|]. exists k. split; [lia | exact E].
Qed.

Lemma exchange_alternates (incoming : list RecvAnswer) :
  forall k, Alternating c (fst (snd (exchange c sr k incoming))).
Proof.
  induction incoming as [|[m|] rest IH]; intros k; cbn [exchange].
  - apply alt_last; lia.
  - assert (List.length (firstn 63 m) <= 63)%nat as L
      by (rewrite length_firstn; lia).
    remember (firstn 63 m) as got eqn:G. clear G.
    destruct (Z.ltb_spec 0 (Z.of_nat (List.length got))) as [P|P].
    + destruct (bytes_eqb _ _).
      * apply alt_last; lia.
      * destruct (Z.eqb_spec (sr k 2) 2) as [E|E].
        -- specialize (IH (S k)).
           destruct (exchange c sr (S k) rest) as [res [evs unread]].
           cbn [fst snd] in *. apply alt_more; [lia | exact IH].
        -- apply alt_short; [lia | exact E].
    + apply alt_last; lia.
  - apply alt_last; lia.
Qed.

End ExchangeFacts.

Section ServerIsExchange.

Variables (stack : list byte) (w : World).

(** After a successful [accept], [setup_server] is [exchange] between the
    prologue and the destructor. *)
Lemma setup_server_exchange :
  server_accepts w ->
  let x := exchange (accepted_socket w) (send_result (os w)) (nsend w) (inbox w) in
  let out := setup_server stack w in
  fst out = server_outcome (fst x)
  /\ trace (snd out)
     = trace w ++ server_prologue w ++ fst (snd x) ++ server_epilogue w
  /\ inbox (snd out) = fst (snd (snd x)).
Proof.
  intros A. cbv zeta.
  pose proof (server_loop_exchange (List.length (inbox w)) (uninitialised 64 stack)
                (accepted_scope w) (uninitialised_length _ _) (Nat.le_refl _)) as E.
  cbv zeta in E. cbn [accepted_scope world socketInfos clientFd os nsend inbox] in E.
  set (x := exchange _ _ _ _) in *.
  destruct (setup_server_exit stack w _ _ A E) as (Q1 & _ & Q3 & _ & _ & Q6).
  - apply exchange_defined.
  - reflexivity.
  - rewrite Q1, Q3, Q6. unfold server_outcome, error.
    split; [destruct (fst x); reflexivity|].
    split; [|reflexivity].
    unfold after_exchange. cbn [trace]. now rewrite <- !app_assoc.
Qed.

Lemma server_accepts_dec : {server_accepts w} + {~ server_accepts w}.
Proof.
  unfold server_accepts.
  destruct (Z.eq_dec (gai_status (os w)) 0); [|right; tauto].
  destruct (bool_dec (socket_ok (os w)) true); [|right; tauto].
  destruct (Z.eq_dec (bind_result (os w)) (-1)); [right; tauto|].
  destruct (Z.eq_dec (listen_result (os w)) (-1)); [right; tauto|].
  destruct (bool_dec (accept_ok (os w)) true); [left; tauto | right; tauto].
Defined.

(** [setup_server] computes [server_summary]. *)
Lemma setup_server_summary :
  fst (setup_server stack w) = fst (server_summary w)
  /\ trace (snd (setup_server stack w)) = trace w ++ snd (server_summary w).
Proof.
  unfold server_summary.
  destruct server_accepts_dec as [SA|N].
  - destruct (setup_server_exchange SA) as (X1 & X2 & _).
    destruct SA as (G & S1 & B & L & A). apply Z.eqb_neq in B, L.
    rewrite G, S1, B, L, A, X1, X2. split; reflexivity.
  - destruct (setup_server_ways stack w) as (r & evs & (E1 & _ & _ & _ & E5) & P).
    rewrite E1, E5. clear E1 E5.
    inversion P as [G|G S1|G S1 B|G S1 B L|G S1 B L A|r0 io SA F D]; subst.
    + apply Z.eqb_neq in G. rewrite G. split; reflexivity.
    + rewrite G, S1. split; reflexivity.
    + rewrite G, S1, B. split; reflexivity.
    + apply Z.eqb_neq in B. rewrite G, S1, B, L. split; reflexivity.
    + apply Z.eqb_neq in B, L. rewrite G, S1, B, L, A. split; reflexivity.
    + contradiction.
Qed.

End ServerIsExchange.

(* ================================================================== *)
(** ** More on the server *)

Lemma calls_since_app (w : World) (out : Result unit * World) (evs : list Event) :
  trace (snd out) = trace w ++ evs -> calls_since w out = evs.
Proof.
  intros E. unfold calls_since. rewrite E, skipn_app, skipn_all, Nat.sub_diag.
  reflexivity.
Qed.

(** X1.  Once [accept] has succeeded, the calls of the server on the
    accepted connection alternate between a receive of at most 63 bytes and
    one send of the two bytes "OK": it never sends before it has received,
    never sends twice for one receive, and receives again only after a send
    written in full; so it has sent at most as often as it has received, and
    received at most once more than it has sent. *)
Theorem X1_server_alternates (stack : list byte) (w : World) :
  server_accepts w ->
  exists io,
    calls_since w (setup_server stack w)
    = server_prologue w ++ io ++ server_epilogue w
    /\ Alternating (accepted_socket w) io
    /\ (sends io <= recvs io)%nat
    /\ (recvs io <= S (sends io))%nat.
Proof.
  intros A.
  destruct (setup_server_exchange stack w A) as (_ & X2 & _).
  set (x := exchange _ _ _ _) in X2.
  pose proof (exchange_alternates (accepted_socket w) (send_result (os w))
                (inbox w) (nsend w)) as I1.
  fold x in I1.
  exists (fst (snd x)). split; [exact (calls_since_app w _ _ X2)|].
  split; [exact I1|].
  clear - I1. induction I1 as [n H|n r H R|n evs H I IH];
    unfold recvs, sends in *; simpl in *; lia.
Qed.

Lemma X1_server_alternates_witness :
  let w := boot kind_os [RecvBytes (chars "a"); RecvBytes (chars "b")] in
  exists io,
    calls_since w (setup_server [] w)
    = server_prologue w ++ io ++ server_epilogue w
    /\ Alternating (accepted_socket w) io
    /\ (sends io <= recvs io)%nat
    /\ (recvs io <= S (sends io))%nat.
Proof.
  apply (X1_server_alternates []
           (boot kind_os [RecvBytes (chars "a"); RecvBytes (chars "b")])).
  repeat split; (reflexivity || discriminate).
Defined.

(** X2.  Once [accept] has succeeded, the server returns normally on every
    sequence of deliveries in which no receive fails and every send of "OK"
    is written in full, whether END_MESSAGE arrives or not.  It throws "recv
    error" only if some receive fails, and "send error" only if some send
    returns something other than 2. *)
Theorem X2_server_throws_only_when (stack : list byte) (w : World) :
  let out := setup_server stack w in
  (server_accepts w ->
   ~ In RecvError (inbox w) ->
   (forall i, (nsend w <= i)%nat -> send_result (os w) i 2 = 2) ->
   fst out = Returns tt)
  /\ (fst out = error "recv error" -> In RecvError (inbox w))
  /\ (fst out = error "send error" ->
      exists i, (nsend w <= i)%nat /\ send_result (os w) i 2 <> 2).
Proof.
  cbv zeta.
  assert (server_accepts w ->
          forall x, x = exchange (accepted_socket w) (send_result (os w))
                                 (nsend w) (inbox w) ->
          fst (setup_server stack w) = server_outcome (fst x)) as Acc.
  { intros A x ->. apply (setup_server_exchange stack w A). }
  split; [|split].
  - intros A NE SR. rewrite (Acc A _ eq_refl).
    destruct (fst (exchange _ _ _ _)) as [n|e|] eqn:E.
    + destruct (exchange_returns _ _ _ _ _ E) as [_ F].
      unfold server_outcome. destruct (Z.eqb_spec n (-1)) as [N|N]; [|reflexivity].
      elim NE. exact (F N).
    + destruct (exchange_throws _ _ _ _ _ E) as (_ & i & I1 & I2).
      elim I2. exact (SR i I1).
    + elim (exchange_defined _ _ _ _ E).
  - intros T. destruct (server_accepts_dec w) as [A|N].
    + rewrite (Acc A _ eq_refl) in T.
      destruct (fst (exchange _ _ _ _)) as [n|e|] eqn:E; cbn [server_outcome] in T.
      * destruct (exchange_returns _ _ _ _ _ E) as [_ F].
        destruct (Z.eqb_spec n (-1)) as [M|M]; [exact (F M) | discriminate T].
      * destruct (exchange_throws _ _ _ _ _ E) as (-> & _). discriminate T.
      * discriminate T.
    + destruct (setup_server_ways stack w) as (r & evs & (E1 & _) & P).
      rewrite T in E1. inversion P; subst;
        try (unfold error in *; congruence); contradiction.
  - intros T. destruct (server_accepts_dec w) as [A|N].
    + rewrite (Acc A _ eq_refl) in T.
      destruct (fst (exchange _ _ _ _)) as [n|e|] eqn:E; cbn [server_outcome] in T.
      * destruct (n =? -1); discriminate T.
      * exact (proj2 (exchange_throws _ _ _ _ _ E)).
      * discriminate T.
    + destruct (setup_server_ways stack w) as (r & evs & (E1 & _) & P).
      rewrite T in E1. inversion P; subst;
        try (unfold error in *; congruence); contradiction.
Qed.

Lemma X2_server_throws_only_when_witness :
  let w := boot kind_os [RecvBytes (chars "never"); RecvBytes (chars "the sentinel")] in
  fst (setup_server [] w) = Returns tt.
Proof.
  pose proof (X2_server_throws_only_when []
                (boot kind_os [RecvBytes (chars "never");
                               RecvBytes (chars "the sentinel")])) as T.
  cbv zeta in T. apply T.
  - repeat split; (reflexivity || discriminate).
  - simpl. intros [H|[H|[]]]; discriminate H.
  - reflexivity.
Defined.

(* ================================================================== *)
(** ** What never matters *)

Section NeverMatters.

(** Two continuations that agree on what the first computation returns
    give the same sequence. *)
Lemma bind_ext {A B : Type} (c : M A) (k k' : A -> M B) (sc : Scope) :
  (forall a sc1, c sc = (Returns a, sc1) -> k a sc1 = k' a sc1) ->
  bind_ c k sc = bind_ c k' sc.
Proof.
  intros H. unfold bind_. destruct (c sc) as [[a|e|] sc1] eqn:E; auto.
Qed.

Lemma setup_server_body_stack (stack stack' : list byte) (sc : Scope) :
  setup_server_body stack sc = setup_server_body stack' sc.
Proof.
  unfold setup_server_body.
  apply bind_ext; intros [status out] sc1 _.
  apply bind_ext; intros [] sc2 _.
  destruct (negb (status =? 0)); [reflexivity|].
  apply bind_ext; intros ai sc3 _.
  apply bind_ext; intros s sc4 _.
  apply bind_ext; intros [] sc5 _.
  destruct (s =? -1); [reflexivity|].
  apply bind_ext; intros r sc6 _.
  destruct (r =? -1); [reflexivity|]. cbv zeta.
  apply bind_ext; intros r' sc7 _.
  destruct (r' =? -1); [reflexivity|].
  apply bind_ext; intros c sc8 _.
  apply bind_ext; intros [] sc9 _.
  destruct (c =? -1); [reflexivity|].
  apply bind_ext; intros rounds sc10 E.
  unfold answers_left in E. injection E as <- <-.
  unfold bind_.
  rewrite !server_loop_exchange
    by (first [apply uninitialised_length | apply Nat.le_refl]).
  reflexivity.
Qed.

Lemma setup_client_body_stack (stack stack' : list byte) (sc : Scope) :
  setup_client_body stack sc = setup_client_body stack' sc.
Proof.
  unfold setup_client_body.
  apply bind_ext; intros [status out] sc1 _.
  apply bind_ext; intros [] sc2 _.
  destruct (negb (status =? 0)); [reflexivity|].
  apply bind_ext; intros ai sc3 _.
  apply bind_ext; intros s sc4 _.
  apply bind_ext; intros [] sc5 _.
  destruct (s =? -1); [reflexivity|].
  apply bind_ext; intros r sc6 _.
  destruct (r =? -1); [reflexivity|]. cbv zeta.
  apply bind_ext; intros sent0 sc7 _.
  destruct (negb (sent0 =? strlen "hello")); [reflexivity|].
  unfold bind_ at 1.
  match goal with
  | |- _ = bind_ ?c ?k ?s => change (bind_ c k s) with
        (match c s with
         | (Returns a, sc1) => k a sc1
         | (Throws e, sc1) => (Throws e, sc1)
         | (Undefined, sc1) => (Undefined, sc1)
         end)
  end.
  unfold call.
  destruct (client_recv stack (socketFd (socketInfos sc7)) (world sc7))
    as (b1 & E & St).
  destruct (client_recv stack' (socketFd (socketInfos sc7)) (world sc7))
    as (b1' & E' & St').
  cbv zeta in E, E'. rewrite E, E'.
  destruct (Z.ltb_spec (first_read (world sc7)) 0) as [N|N]; [reflexivity|].
  destruct (St N) as (b2 & -> & T & P). destruct (St' N) as (b2' & -> & T' & P').
  unfold cout_line. rewrite T, T', P, P'. reflexivity.
Qed.

End NeverMatters.

(** X3.  What the array [buffer] holds before the first receive (it is not
    initialised) never changes what either function does: the outcome and
    the whole world after the call are the same for every earlier content
    of the stack. *)
Theorem X3_stale_buffer_never_matters (stack stack' : list byte) (w : World) :
  setup_server stack w = setup_server stack' w
  /\ setup_client stack w = setup_client stack' w.
Proof.
  unfold setup_server, setup_client, run_scope.
  rewrite (setup_server_body_stack stack stack'),
          (setup_client_body_stack stack stack').
  split; reflexivity.
Qed.

Section FirstAddress.

Variables (l : list addrinfo) (w : World).

Lemma server_summary_more : server_summary (with_more l w) = server_summary w.
Proof. reflexivity. Qed.

Lemma client_run_more (r : Result unit) (evs : list Event) :
  ClientRun (with_more l w) r evs -> ClientRun w r evs.
Proof.
  intros P. inversion P; subst.
  - refine (CR_getaddrinfo w _); assumption.
  - refine (CR_socket w _ _); assumption.
  - refine (CR_connect w _ _ _); assumption.
  - refine (CR_hello w _ _); assumption.
  - refine (CR_recv w _ _ _); assumption.
  - refine (CR_end w _ _ _ _); assumption.
  - refine (CR_complete w _ _ _ _); assumption.
Qed.

Lemma client_run_functional (r r' : Result unit) (evs evs' : list Event) :
  ClientRun w r evs -> ClientRun w r' evs' -> r = r' /\ evs = evs'.
Proof.
  intros P P'.
  inversion P; subst; inversion P'; subst;
    try (split; reflexivity);
    unfold client_connects in *; exfalso; intuition (congruence || lia).
Qed.

End FirstAddress.

(** X4.  Only the first address of the list [getaddrinfo] returns is ever
    used: whatever follows it in the list, both functions end the same way
    after the same calls; no later address is tried, also when [socket],
    [bind], [listen], [accept] or [connect] fails on the first. *)
Theorem X4_only_first_address (l : list addrinfo) (stack : list byte) (w : World) :
  let w' := with_more l w in
  fst (setup_server stack w') = fst (setup_server stack w)
  /\ calls_since w' (setup_server stack w') = calls_since w (setup_server stack w)
  /\ fst (setup_client stack w') = fst (setup_client stack w)
  /\ calls_since w' (setup_client stack w') = calls_since w (setup_client stack w).
Proof.
  cbv zeta.
  destruct (setup_server_summary stack (with_more l w)) as [S1 S2].
  destruct (setup_server_summary stack w) as [S3 S4].
  destruct (setup_client_ways stack (with_more l w))
    as (r & evs & (C1 & _ & _ & _ & C2) & P).
  destruct (setup_client_ways stack w)
    as (r' & evs' & (C3 & _ & _ & _ & C4) & P').
  destruct (client_run_functional w r r' evs evs' (client_run_more l w r evs P) P')
    as [<- <-].
  rewrite (calls_since_app _ _ _ S2), (calls_since_app _ _ _ S4),
          (calls_since_app _ _ _ C2), (calls_since_app _ _ _ C4).
  rewrite S1, S3, C1, C3, server_summary_more. repeat split; reflexivity.
Qed.


(** X7.  The conversation of the test: when every call succeeds, every send
    is written in full, and each side is delivered exactly what the other
    sends, one delivery per send, then both functions return normally; the
    client has sent "hello" and "END_MESSAGE", the server has sent "OK"
    once, and the server has read everything. *)
Theorem X7_conversation (stack_s stack_c : list byte) (w_s w_c : World) :
  let server := setup_server stack_s w_s in
  let client := setup_client stack_c w_c in
  server_accepts w_s ->
  client_connects w_c ->
  (forall k len, send_result (os w_s) k len = len) ->
  (forall k len, send_result (os w_c) k len = len) ->
  inbox w_s = map RecvBytes (sent (calls_since w_c client)) ->
  inbox w_c = map RecvBytes (sent (calls_since w_s server)) ->
  fst server = Returns tt /\ fst client = Returns tt
  /\ sent (calls_since w_c client) = [chars "hello"; chars END_MESSAGE]
  /\ sent (calls_since w_s server) = [chars "OK"]
  /\ inbox (snd server) = [].
Proof.
  cbv zeta. intros A (G & S1 & C) SRs SRc Hs Hc.
  destruct (setup_client_ways stack_c w_c) as (r & evs & (E1 & _ & _ & _ & E5) & P).
  rewrite (calls_since_app _ _ _ E5) in *. rewrite E1. clear E1 E5.
  assert (0 <= first_read w_c) as R.
  { unfold first_read. rewrite Hc.
    destruct (sent (calls_since w_s (setup_server stack_s w_s))) as [|m ms];
      cbn [map]; lia. }
  pose proof (SRc (nsend w_c) 5) as H5. pose proof (SRc (S (nsend w_c)) 11) as H11.
  inversion P; subst; try congruence; try lia.
  assert (sent (client_prologue w_c ++ [e_hello w_c; e_recv w_c; e_end w_c]
                ++ client_epilogue w_c)
          = [chars "hello"; chars END_MESSAGE]) as Sc by reflexivity.
  rewrite Sc in *. cbn [map] in Hs.
  destruct (setup_server_exchange stack_s w_s A) as (X1 & X2 & X3).
  rewrite (calls_since_app _ _ _ X2), X1, X3, Hs. clear X1 X2 X3.
  cbn [exchange]. rewrite SRs.
  repeat split; reflexivity.
Qed.

Lemma X7_conversation_witness :
  let w_s := boot kind_os [RecvBytes (chars "hello"); RecvBytes (chars END_MESSAGE)] in
  let w_c := boot kind_os [RecvBytes (chars "OK")] in
  fst (setup_server [] w_s) = Returns tt /\ fst (setup_client [] w_c) = Returns tt
  /\ sent (calls_since w_c (setup_client [] w_c)) = [chars "hello"; chars END_MESSAGE]
  /\ sent (calls_since w_s (setup_server [] w_s)) = [chars "OK"]
  /\ inbox (snd (setup_server [] w_s)) = [].
Proof.
  apply (X7_conversation [] []
           (boot kind_os [RecvBytes (chars "hello"); RecvBytes (chars END_MESSAGE)])
           (boot kind_os [RecvBytes (chars "OK")])).
  - repeat split; (reflexivity || discriminate).
  - repeat split; (reflexivity || discriminate).
  - reflexivity.
  - reflexivity.
  - reflexivity.
  - reflexivity.
Defined.

(** X8.  Whatever is delivered, also more bytes than the array holds, the
    store of the terminator stays inside the 64-byte array and [res] is
    never dereferenced while null: the loop and both functions end by
    return or by throw. *)
Theorem X8_never_out_of_bounds :
  (forall (rounds : nat) (buffer : Buffer) (sc : Scope),
     List.length buffer = 64%nat ->
     (List.length (inbox (world sc)) <= rounds)%nat ->
     fst (server_loop rounds buffer sc) <> Undefined)
  /\ (forall (stack : list byte) (w : World),
        fst (setup_server stack w) <> Undefined
        /\ fst (setup_client stack w) <> Undefined).
Proof.
  split.
  - intros rounds buffer sc B R.
    rewrite (server_loop_exchange rounds buffer sc B R). cbv zeta. cbn [fst].
    apply exchange_defined.
  - intros stack w. split.
    + destruct (setup_server_ways stack w) as (r & evs & (E1 & _) & P).
      rewrite E1. exact (server_run_defined w r evs P).
    + destruct (setup_client_ways stack w) as (r & evs & (E1 & _) & P).
      rewrite E1. exact (client_run_defined w r evs P).
Qed.

Lemma X8_never_out_of_bounds_witness :
  fst (server_loop 1 (uninitialised 64 [])
         {| world := boot kind_os [RecvBytes (repeat x41 200)];
            socketInfos := RAIIRawSocketInfos_ctor |}) <> Undefined.
Proof.
  destruct X8_never_out_of_bounds as [T _].
  apply T; [reflexivity | simpl; lia].
Defined.

(* ================================================================== *)
(** ** FunctionCallTestSuite.cpp: the benchmarked calls *)

Section CallN.

Lemma int_wrap_id (z : Z) : INT_MIN <= z <= INT_MAX -> int_wrap z = z.
Proof.
  unfold INT_MIN, INT_MAX, int_wrap. intros H.
  rewrite Z.mod_small by lia. lia.
Qed.

Lemma int_wrap_add (a b : Z) : int_wrap (int_wrap a + b) = int_wrap (a + b).
Proof.
  unfold int_wrap.
  replace ((a + 2147483648) mod 4294967296 - 2147483648 + b + 2147483648)
    with ((a + 2147483648) mod 4294967296 + b) by lia.
  rewrite Zplus_mod_idemp_l. f_equal. f_equal. lia.
Qed.

Context {F : Type} `{Callable F}.

Lemma call_n_from_constant (f : F) (v n : Z) :
  constant f v ->
  forall (k : nat) (i r : Z),
    Z.to_nat (n - i) = k ->
    call_n_from f n i (int_wrap r) = (int_wrap (r + Z.max 0 (n - i) * v), f).
Proof.
  intros C. induction k as [|k IH]; intros i r K;
    rewrite call_n_from_equation_1; unfold call_n_from_unfold_clause_1;
    destruct (Z_lt_dec i n) as [L|L]; try lia.
  - rewrite Z.max_l by lia. f_equal. f_equal. ring.
  - rewrite C, int_wrap_add, (IH (i + 1) (r + v)) by lia.
    rewrite !Z.max_r by lia. f_equal. f_equal. ring.
Qed.

(** [call_n] on a constant callable: [n] calls when [n] is positive, none
    otherwise. *)
Lemma call_n_constant (f : F) (v n : Z) :
  constant f v -> call_n f n = (int_wrap (Z.max 0 n * v), f).
Proof.
  intros C. unfold call_n. change 0 with (int_wrap 0) at 2.
  rewrite (call_n_from_constant f v n C (Z.to_nat (n - 0)) 0 0 eq_refl).
  now rewrite Z.sub_0_r, Z.add_0_l.
Qed.

End CallN.

(** X9.  For every [n] an [int] holds, the four benchmarked bodies, through
    [std::bind], through the function, through the functor and through the
    lambda, return the same value: [n] when it is positive (the callable is
    called [n] times and returns 1 each time), 0 otherwise (it is not
    called). *)
Theorem X9_benchmark_bodies_agree (n : Z) :
  INT_MIN <= n <= INT_MAX ->
  bind_body n = Z.max 0 n /\ direct_body n = Z.max 0 n
  /\ functor_body n = Z.max 0 n /\ lambda_body n = Z.max 0 n.
Proof.
  intros R. unfold bind_body, direct_body, functor_body, lambda_body.
  rewrite (call_n_constant (H := bind_callable)
             {| bound := realImplementation |} 1 n eq_refl),
          (call_n_constant (H := function_callable) realImplementation 1 n eq_refl),
          (call_n_constant (H := functor_callable) ObjectFunctor_ctor 1 n eq_refl),
          (call_n_constant (H := lambda_callable) Lambda1_ctor 1 n eq_refl).
  cbn [fst]. rewrite Z.mul_1_r, int_wrap_id by (unfold INT_MIN, INT_MAX in *; lia).
  repeat split; reflexivity.
Qed.

Lemma X9_benchmark_bodies_agree_witness :
  bind_body 10000 = Z.max 0 10000 /\ direct_body 10000 = Z.max 0 10000
  /\ functor_body 10000 = Z.max 0 10000 /\ lambda_body 10000 = Z.max 0 10000.
Proof.
  apply (X9_benchmark_bodies_agree 10000). unfold INT_MIN, INT_MAX. lia.
Defined.

(* ================================================================== *)
(** ** FunctionCallTestSuite.cpp: LambdaDetailsTest *)

Section Lambdas.

Lemma int_wrap_in_range (z : Z) : INT_MIN <= int_wrap z <= INT_MAX.
Proof.
  unfold INT_MIN, INT_MAX, int_wrap.
  pose proof (Z.mod_pos_bound (z + 2147483648) 4294967296 ltac:(lia)). lia.
Qed.

End Lambdas.

(** X10.  A lambda that captures by copy and is [mutable] counts in its own
    copy: created when the variable holds [c], its [k] calls return [c + 1]
    up to [c + k] (while these fit an [int]), and the closure then holds
    [c + k]; so a copy of the closure goes on from the count at the time of
    the copy. *)
Theorem X10_mutable_lambda_counts (c : Z) (k : nat) :
  INT_MIN <= c -> c + Z.of_nat k <= INT_MAX ->
  invoke_times k {| copy_of_captured := c |}
  = (map (fun j => c + Z.of_nat j) (seq 1 k),
     {| copy_of_captured := c + Z.of_nat k |}).
Proof.
  revert c. induction k as [|k IH]; intros c L U.
  - cbn [invoke_times seq map]. now rewrite Z.add_0_r.
  - cbn [invoke_times]. unfold invoke at 1, mutable_callable.
    cbn [copy_of_captured].
    rewrite int_wrap_id by (unfold INT_MIN, INT_MAX in *; lia).
    rewrite IH by lia. cbn [seq map]. f_equal.
    + f_equal. rewrite <- (seq_shift k 1), map_map. apply map_ext. intros j. lia.
    + f_equal. lia.
Qed.

Lemma X10_mutable_lambda_counts_witness :
  invoke_times 2 {| copy_of_captured := 1 |}
  = (map (fun j => 1 + Z.of_nat j) (seq 1 2), {| copy_of_captured := 1 + Z.of_nat 2 |}).
Proof.
  apply (X10_mutable_lambda_counts 1 2); unfold INT_MIN, INT_MAX; simpl; lia.
Defined.

(** X11.  Whatever the variable held and whatever argument [x] the three
    by-reference lambdas are called with (as long as no addition leaves the
    range of [int]), after the loop over [fs] the variable is [x + 1] (the
    last lambda overwrites what the first two did), the copying lambda
    returns [x + 2] and [x + 3], its copy returns [x + 4], and the variable
    is still [x + 1]: with 42 and 0, the 1, 2, 3 and 4 the test checks. *)
Theorem X11_lambda_details (captured0 x : Z) :
  INT_MIN <= captured0 <= INT_MAX -> INT_MIN <= captured0 + x <= INT_MAX ->
  INT_MIN <= x -> x + 4 <= INT_MAX ->
  LambdaDetailsTest captured0 x = (x + 1, x + 2, x + 3, x + 4, x + 1).
Proof.
  intros _ _ L U. unfold LambdaDetailsTest, call_each, fs, l0, l1, l2.
  cbn [fold_left]. unfold invoke, mutable_callable. cbn [copy_of_captured].
  rewrite (int_wrap_id (x + 1)) by (unfold INT_MIN, INT_MAX in *; lia).
  rewrite (int_wrap_id (x + 1 + 1)) by (unfold INT_MIN, INT_MAX in *; lia).
  rewrite (int_wrap_id (x + 1 + 1 + 1)) by (unfold INT_MIN, INT_MAX in *; lia).
  rewrite (int_wrap_id (x + 1 + 1 + 1 + 1)) by (unfold INT_MIN, INT_MAX in *; lia).
  replace (x + 1 + 1 + 1 + 1) with (x + 4) by lia.
  replace (x + 1 + 1 + 1) with (x + 3) by lia.
  replace (x + 1 + 1) with (x + 2) by lia.
  reflexivity.
Qed.

Lemma X11_lambda_details_witness :
  LambdaDetailsTest 42 0 = (0 + 1, 0 + 2, 0 + 3, 0 + 4, 0 + 1).
Proof.
  apply (X11_lambda_details 42 0); unfold INT_MIN, INT_MAX; lia.
Defined.

(* ================================================================== *)
(** ** BasicNetworkingTestSuite.cpp: SynchronousTimerTest *)

Section Timer.

Lemma io_run_ticks (n : nat) :
  forall c e l fuel,
    n = Z.to_nat (Z.max 0 c) -> INT_MIN < c <= INT_MAX ->
    (2 * (n + 1) <= fuel)%nat ->
    io_run fuel {| t := {| Asio.expiry := e; Asio.waiting := 1; Asio.cancelled := 0 |};
                   count := c; ready := 0; ticks := l |}
    = Some {| t := {| Asio.expiry := e + Z.max 0 c; Asio.waiting := 0;
                      Asio.cancelled := 0 |};
              count := Z.min c 0 - 1; ready := 0;
              ticks := l ++ map (fun j => e + Z.of_nat j) (seq 0 (n + 1)) |}.
Proof.
  induction n as [|n IH]; intros c e l fuel N R F.
  - destruct fuel as [|[|fuel]]; try lia.
    assert (C : c <= 0) by lia.
    cbn [io_run out_of_work ready t Asio.waiting Asio.cancelled io_step
         Nat.add count ticks Asio.expiry].
    unfold timerTicker. cbn [count t ready ticks].
    destruct (Z.gtb_spec c 0) as [G|G]; [lia|].
    rewrite int_wrap_id by (unfold INT_MIN, INT_MAX in *; lia).
    destruct fuel; cbn [io_run out_of_work ready t Asio.waiting Asio.cancelled];
      unfold Asio.expires_at; cbn [Asio.expiry seq map Nat.add];
      rewrite Z.max_l, Z.min_l, !Z.add_0_r by lia; reflexivity.
  - destruct fuel as [|[|fuel]]; try lia.
    assert (C : 0 < c) by lia.
    cbn [io_run out_of_work ready t Asio.waiting Asio.cancelled io_step
         Nat.add count ticks Asio.expiry].
    unfold timerTicker. cbn [count t ready ticks].
    destruct (Z.gtb_spec c 0) as [G|G]; [|lia].
    rewrite int_wrap_id by (unfold INT_MIN, INT_MAX in *; lia).
    unfold Asio.async_wait, Asio.set_expires_at, Asio.expires_at.
    cbn [Asio.expiry Asio.waiting Asio.cancelled Nat.add].
    rewrite (IH (c - 1) (e + 1) (l ++ [e]) fuel)
      by (unfold INT_MIN, INT_MAX in *; lia).
    rewrite <- app_assoc. cbn [app].
    replace (S n + 1)%nat with (S (n + 1)) by lia.
    cbn [seq map]. rewrite <- (seq_shift (n + 1) 0), map_map.
    replace (e + 1 + Z.max 0 (c - 1)) with (e + Z.max 0 c) by lia.
    replace (Z.min (c - 1) 0) with (Z.min c 0) by lia.
    rewrite Z.add_0_r.
    do 4 f_equal. apply map_ext. intros j. lia.
Qed.

End Timer.

(** X12.  Whatever value [c] the handler's static [count] starts with, the
    run of [io] ends, after the handler has been called [max 0 c + 1] times:
    for the expiry times 2, 3, ..., [2 + max 0 c] seconds, one second
    apart; [count] is then -1 for [c >= 0] and [c - 1] otherwise, and no
    handler is left waiting.  With the 5 of the source: six calls, the
    last one due 7 seconds after the timer was made. *)
Theorem X12_timer_ticks (c : Z) (fuel : nat) :
  INT_MIN < c <= INT_MAX ->
  (2 * (Z.to_nat (Z.max 0 c) + 1) <= fuel)%nat ->
  SynchronousTimerTest c fuel
  = Some {| t := {| Asio.expiry := 2 + Z.max 0 c; Asio.waiting := 0;
                    Asio.cancelled := 0 |};
            count := Z.min c 0 - 1; ready := 0;
            ticks := map (fun j => 2 + Z.of_nat j)
                         (seq 0 (Z.to_nat (Z.max 0 c) + 1)) |}.
Proof.
  intros R F. unfold SynchronousTimerTest, Asio.deadline_timer_ctor, Asio.async_wait.
  cbv zeta. cbn [Asio.expiry Asio.waiting Asio.cancelled].
  exact (io_run_ticks _ c 2 [] fuel eq_refl R F).
Qed.

Lemma X12_timer_ticks_witness :
  SynchronousTimerTest 5 12
  = Some {| t := {| Asio.expiry := 2 + Z.max 0 5; Asio.waiting := 0;
                    Asio.cancelled := 0 |};
            count := Z.min 5 0 - 1; ready := 0;
            ticks := map (fun j => 2 + Z.of_nat j)
                         (seq 0 (Z.to_nat (Z.max 0 5) + 1)) |}.
Proof.
  apply (X12_timer_ticks 5 12); [unfold INT_MIN, INT_MAX; lia | simpl; lia].
Defined.
